(** * dyff: the diff report model, its filters, and the YAML renderer

    A shallow embedding of [pkg/dyff/reports.go], of the document-grouped
    YAML report writer ([consolidateDiff], [YAMLReport.WriteReport]) and of
    [writeReport] from the [cmd] package, together with the properties of
    the report specification that concern them.

    Conventions of the embedding:
    - a Go pointer that the code compares with [nil] is an [option];
    - a Go slice whose nil-ness the code tests is an [option (list _)],
      any other slice is a [list] ([nil] and the empty slice both have
      length zero and range over nothing);
    - a Go function that can panic returns a [result];
    - a Go [map] is a [gmap]; ranging over it visits its keys in an order
      the language leaves unspecified, so a loop over a map is a relation;
    - what is declared outside the sources at hand (the [ytbx] and
      [regexp] libraries, the kind constants, the other report writers) is
      a field of a class, [Lib], [YAMLLib] or [CmdLib], that the
      definitions and the theorems take as a parameter. *)

From Stdlib Require Import ZArith.
From stdpp Require Import base option list strings gmap fin_maps.

(** ** Outcomes of a Go call that may panic *)

Inductive result (A : Type) : Type :=
| Ok (a : A)
| Panic (msg : string).
Arguments Ok {A} a.
Arguments Panic {A} msg.

Definition bind {A B : Type} (m : result A) (k : A -> result B) : result B :=
  match m with
  | Ok a => k a
  | Panic msg => Panic msg
  end.

Notation "'let!' x ':=' m 'in' k" := (bind m (fun x => k))
  (at level 10, x name, m at level 100, k at level 200, only parsing).

Definition is_Ok {A : Type} (m : result A) : Prop := exists a, m = Ok a.

Definition tested_true (m : result bool) : bool :=
  match m with
  | Ok true => true
  | _ => false
  end.

(** The messages the Go runtime and [regexp.MustCompile] panic with.  Only
    the fact of the panic matters below. *)
Definition nil_dereference : string :=
  "runtime error: invalid memory address or nil pointer dereference".
Definition regexp_panic : string := "regexp: Compile: error parsing regexp".

(** The string [WriteReport] ends its output with. *)
Definition newline : string := String (Ascii.ascii_of_nat 10) EmptyString.

(** A loop [for _, x := range xs { acc, err = body(acc, x) }] that stops at
    the first panic. *)
Fixpoint range_loop {A S : Type} (body : S -> A -> result S) (xs : list A) (acc : S)
  : result S :=
  match xs with
  | [] => Ok acc
  | x :: rest => let! acc' := body acc x in range_loop body rest acc'
  end.

(** * Package dyff *)

Module dyff.

(** ** What the sources use but do not declare

    The type of [Detail.Kind] with its zero value and the three constants
    the sources name (their declaration is not among the sources), and
    what the code takes from the libraries [yamlv3], [ytbx] and [regexp]. *)
Class Lib : Type := {
  KindT : Type;
  KindT_eq :: EqDecision KindT;
  zeroKind : KindT;
  ADDITION : KindT;
  REMOVAL : KindT;
  MODIFICATION : KindT;
  (** [yamlv3.Node], [ytbx.InputFile], [ytbx.PathElement], [ytbx.Path] *)
  Node : Type;
  InputFile : Type;
  PathElement : Type;
  ytbx_Path : Type;
  (** the field [PathElements] of a [ytbx.Path]: a slice, [None] when nil *)
  PathElements : ytbx_Path -> option (list PathElement);
  (** [Path.String()] and [Path.RootDescription()], on a path that exists *)
  Path_String : ytbx_Path -> string;
  RootDescription : ytbx_Path -> string;
  (** [ytbx.ParsePathStringUnsafe]: a path and an error, [None] for [nil] *)
  ParsePathStringUnsafe : string -> ytbx_Path * option string;
  (** [regexp.Compile], [None] when the pattern does not compile, and
      [Regexp.MatchString] *)
  Regexp : Type;
  regexp_Compile : string -> option Regexp;
  MatchString : Regexp -> string -> bool
}.

Section Model.

Context `{L : Lib}.

(** ** The report model *)

Record Detail : Type := mkDetail {
  From : option Node;
  To : option Node;
  Kind : KindT
}.

Record Diff : Type := mkDiff {
  Path : option ytbx_Path;
  Details : list Detail
}.

Record Report : Type := mkReport {
  Report_From : InputFile;
  Report_To : InputFile;
  Diffs : list Diff
}.

(** [var deet Detail]: the zero value of the struct. *)
Definition zeroDetail : Detail :=
  {| From := None; To := None; Kind := zeroKind |}.

(** ** reports.go *)

(** [Report.filter]: keeps, in order, the diffs whose path [hasPath] accepts. *)
Definition filter (r : Report) (hasPath : option ytbx_Path -> bool) : Report :=
  {| Report_From := Report_From r;
     Report_To := Report_To r;
     Diffs := fold_left
                (fun acc diff => if hasPath (Path diff) then acc ++ [diff] else acc)
                (Diffs r) [] |}.

(** The condition [err == nil && filterPath != nil &&
    path.String() == filterPath.String()] of [Filter] and [Exclude]. *)
Definition path_hit (pathString : string) (filterPath : option ytbx_Path) : bool :=
  let '(path, err) := ParsePathStringUnsafe pathString in
  match err, filterPath with
  | None, Some fp => bool_decide (Path_String path = Path_String fp)
  | _, _ => false
  end.

(** The closure [Filter] hands to [filter]: the loop returns [true] at
    the first hit. *)
Fixpoint Filter_hasPath (paths : list string) (filterPath : option ytbx_Path) : bool :=
  match paths with
  | [] => false
  | pathString :: rest =>
      if path_hit pathString filterPath then true else Filter_hasPath rest filterPath
  end.

Definition Filter (r : Report) (paths : list string) : Report :=
  match paths with
  | [] => r
  | _ => filter r (Filter_hasPath paths)
  end.

Fixpoint Exclude_hasPath (paths : list string) (filterPath : option ytbx_Path) : bool :=
  match paths with
  | [] => true
  | pathString :: rest =>
      if path_hit pathString filterPath then false else Exclude_hasPath rest filterPath
  end.

Definition Exclude (r : Report) (paths : list string) : Report :=
  match paths with
  | [] => r
  | _ => filter r (Exclude_hasPath paths)
  end.

(** [filterPath != nil && pathString == filterPath.RootDescription()] *)
Definition document_hit (pathString : string) (filterPath : option ytbx_Path) : bool :=
  match filterPath with
  | Some fp => bool_decide (pathString = RootDescription fp)
  | None => false
  end.

Fixpoint FilterDocument_hasPath (paths : list string) (filterPath : option ytbx_Path) : bool :=
  match paths with
  | [] => false
  | pathString :: rest =>
      if document_hit pathString filterPath then true
      else FilterDocument_hasPath rest filterPath
  end.

Definition FilterDocument (r : Report) (paths : list string) : Report :=
  match paths with
  | [] => r
  | _ => filter r (FilterDocument_hasPath paths)
  end.

Fixpoint ExcludeDocument_hasPath (paths : list string) (filterPath : option ytbx_Path) : bool :=
  match paths with
  | [] => true
  | pathString :: rest =>
      if document_hit pathString filterPath then false
      else ExcludeDocument_hasPath rest filterPath
  end.

Definition ExcludeDocument (r : Report) (paths : list string) : Report :=
  match paths with
  | [] => r
  | _ => filter r (ExcludeDocument_hasPath paths)
  end.

(** [regexp.MustCompile]: panics where [regexp.Compile] fails. *)
Definition MustCompile (pattern : string) : result Regexp :=
  match regexp_Compile pattern with
  | Some re => Ok re
  | None => Panic regexp_panic
  end.

(** [for i := range pattern { regexps[i] = regexp.MustCompile(pattern[i]) }] *)
Definition compile_all (pattern : list string) : result (list Regexp) :=
  range_loop (fun regexps p => let! re := MustCompile p in Ok (regexps ++ [re])) pattern [].

(** [filterPath != nil && regexp.MatchString(filterPath.String())] *)
Definition regexp_hit (re : Regexp) (filterPath : option ytbx_Path) : bool :=
  match filterPath with
  | Some fp => MatchString re (Path_String fp)
  | None => false
  end.

(** [filterPath != nil && r.MatchString(filterPath.RootDescription())] *)
Definition document_regexp_hit (re : Regexp) (filterPath : option ytbx_Path) : bool :=
  match filterPath with
  | Some fp => MatchString re (RootDescription fp)
  | None => false
  end.

Fixpoint FilterRegexp_hasPath (regexps : list Regexp) (filterPath : option ytbx_Path) : bool :=
  match regexps with
  | [] => false
  | re :: rest =>
      if regexp_hit re filterPath then true else FilterRegexp_hasPath rest filterPath
  end.

Definition FilterRegexp (r : Report) (pattern : list string) : result Report :=
  match pattern with
  | [] => Ok r
  | _ => let! regexps := compile_all pattern in Ok (filter r (FilterRegexp_hasPath regexps))
  end.

Fixpoint ExcludeRegexp_hasPath (regexps : list Regexp) (filterPath : option ytbx_Path) : bool :=
  match regexps with
  | [] => true
  | re :: rest =>
      if regexp_hit re filterPath then false else ExcludeRegexp_hasPath rest filterPath
  end.

Definition ExcludeRegexp (r : Report) (pattern : list string) : result Report :=
  match pattern with
  | [] => Ok r
  | _ => let! regexps := compile_all pattern in Ok (filter r (ExcludeRegexp_hasPath regexps))
  end.

Fixpoint FilterDocumentRegexp_hasPath (regexps : list Regexp) (filterPath : option ytbx_Path) : bool :=
  match regexps with
  | [] => false
  | re :: rest =>
      if document_regexp_hit re filterPath then true
      else FilterDocumentRegexp_hasPath rest filterPath
  end.

Definition FilterDocumentRegexp (r : Report) (pattern : list string) : result Report :=
  match pattern with
  | [] => Ok r
  | _ => let! regexps := compile_all pattern in
         Ok (filter r (FilterDocumentRegexp_hasPath regexps))
  end.

Fixpoint ExcludeDocumentRegexp_hasPath (regexps : list Regexp) (filterPath : option ytbx_Path) : bool :=
  match regexps with
  | [] => true
  | re :: rest =>
      if document_regexp_hit re filterPath then false
      else ExcludeDocumentRegexp_hasPath rest filterPath
  end.

Definition ExcludeDocumentRegexp (r : Report) (pattern : list string) : result Report :=
  match pattern with
  | [] => Ok r
  | _ => let! regexps := compile_all pattern in
         Ok (filter r (ExcludeDocumentRegexp_hasPath regexps))
  end.

(** The inner loop of [IgnoreValueChanges]: [hasValChange] is set, and the
    loop left, at the first MODIFICATION detail. *)
Fixpoint hasValChange (details : list Detail) : bool :=
  match details with
  | [] => false
  | detail :: rest =>
      if bool_decide (Kind detail = MODIFICATION) then true else hasValChange rest
  end.

Definition IgnoreValueChanges (r : Report) : Report :=
  {| Report_From := Report_From r;
     Report_To := Report_To r;
     Diffs := fold_left
                (fun acc diff => if hasValChange (Details diff) then acc else acc ++ [diff])
                (Diffs r) [] |}.

(** [len(diff.Details) == 1 && diff.Details[0].Kind == ADDITION &&
    diff.Path.PathElements == nil].  The conjunction is evaluated from the
    left; its last operand reads a field through [diff.Path] and panics
    when that pointer is nil. *)
Definition isNewDoc (diff : Diff) : result bool :=
  match Details diff with
  | [detail] =>
      if bool_decide (Kind detail = ADDITION) then
        match Path diff with
        | Some p => Ok (bool_decide (PathElements p = None))
        | None => Panic nil_dereference
        end
      else Ok false
  | _ => Ok false
  end.

Definition IgnoreNewDocuments (r : Report) : result Report :=
  let! diffs := range_loop
                  (fun acc diff =>
                     let! new := isNewDoc diff in
                     Ok (if new then acc else acc ++ [diff]))
                  (Diffs r) [] in
  Ok {| Report_From := Report_From r; Report_To := Report_To r; Diffs := diffs |}.

(** ** The document grouping of the YAML report *)

(** The body of [case 2]: the loop over the two details, each [switch]
    taking its first matching case, then [deet.Kind = MODIFICATION]. *)
Definition merge_detail (deet detail : Detail) : Detail :=
  if bool_decide (Kind detail = ADDITION) then
    {| From := From deet; To := To detail; Kind := Kind deet |}
  else if bool_decide (Kind detail = REMOVAL) then
    {| From := From detail; To := To deet; Kind := Kind deet |}
  else deet.

(** The [switch len(diff.Details)] of [consolidateDiff], which has the
    cases 1 and 2 and no default: [deet] starts as the zero value. *)
Definition consolidate (diff : Diff) : Detail :=
  match Details diff with
  | [detail] => detail
  | [_; _] =>
      let deet := fold_left merge_detail (Details diff) zeroDetail in
      {| From := From deet; To := To deet; Kind := MODIFICATION |}
  | _ => zeroDetail
  end.

(** One turn of the loop of [consolidateDiff].  The key is
    [diff.Path.RootDescription()], a method that reads the fields of its
    receiver: called through a nil pointer it panics.  Indexing the map
    at a key it does not hold gives the nil slice. *)
Definition consolidate_step (fileDiffs : gmap string (list Diff)) (diff : Diff)
  : result (gmap string (list Diff)) :=
  let deet := consolidate diff in
  match Path diff with
  | None => Panic nil_dereference
  | Some p =>
      let key := RootDescription p in
      Ok (<[key := default [] (fileDiffs !! key)
                    ++ [{| Path := Path diff; Details := [deet] |}]]> fileDiffs)
  end.

Definition consolidateDiff (report : Report) : result (gmap string (list Diff)) :=
  range_loop consolidate_step (Diffs report) ∅.

End Model.

(** ** The document-grouped YAML report *)

(** The three fields [WriteReport] reads from the result of
    [K8sMetaFromName]; [ObjectMeta] stands for [metav1.ObjectMeta]. *)
Record K8sMeta (ObjectMeta : Type) : Type := mkK8sMeta {
  meta_APIVersion : string;
  meta_Kind : string;
  meta_Metadata : ObjectMeta
}.
Arguments mkK8sMeta {ObjectMeta} _ _ _.
Arguments meta_APIVersion {ObjectMeta} _.
Arguments meta_Kind {ObjectMeta} _.
Arguments meta_Metadata {ObjectMeta} _.

Record YAMLReportDiff `{L : Lib} : Type := mkYAMLReportDiff {
  yaml_Details : list Detail;
  yaml_Path : string
}.

Record YAMLReportOutput `{L : Lib} (ObjectMeta : Type) : Type := mkYAMLReportOutput {
  APIVersion : string;
  out_Kind : string;
  Metadata : ObjectMeta;
  out_Diffs : list YAMLReportDiff
}.
Arguments mkYAMLReportOutput {L ObjectMeta} _ _ _ _.
Arguments APIVersion {L ObjectMeta} _.
Arguments out_Kind {L ObjectMeta} _.
Arguments Metadata {L ObjectMeta} _.
Arguments out_Diffs {L ObjectMeta} _.

(** [K8sMetaFromName] (declared in a file that is not among the sources),
    the YAML encoder of [neat], and the buffered writer over the sink. *)
Class YAMLLib `{L : Lib} : Type := {
  ObjectMeta : Type;
  Writer : Type;
  K8sMetaFromName : string -> K8sMeta ObjectMeta * option string;
  ToYAML : YAMLReportOutput ObjectMeta -> string * option string;
  WriteString : Writer -> string -> Writer * option string;
  Flush : Writer -> Writer
}.

Section YAML.

Context `{Y : YAMLLib}.

(** The inner loop of [WriteReport]; [diff.Path.String()] panics on a nil
    pointer as well. *)
Definition yaml_diffs (diffs : list Diff) : result (list YAMLReportDiff) :=
  range_loop
    (fun d diff =>
       match Path diff with
       | None => Panic nil_dereference
       | Some p => Ok (d ++ [{| yaml_Details := Details diff; yaml_Path := Path_String p |}])
       end)
    diffs [].

(** The outer loop of [WriteReport] over the entries of the map, taken in
    the order [groups]; it returns the writer and the error of the
    function ([None] for [nil]). *)
Fixpoint write_groups (groups : list (string * list Diff)) (writer : Writer)
  : result (Writer * option string) :=
  match groups with
  | [] =>
      let '(writer, _) := WriteString writer newline in
      Ok (writer, None)
  | (file, diffs) :: rest =>
      let '(meta, err) := K8sMetaFromName file in
      match err with
      | Some e => Ok (writer, Some e)
      | None =>
          let! d := yaml_diffs diffs in
          let data := {| APIVersion := meta_APIVersion meta;
                         out_Kind := meta_Kind meta;
                         Metadata := meta_Metadata meta;
                         out_Diffs := d |} in
          let '(yamlData, err) := ToYAML data in
          match err with
          | Some e => Ok (writer, Some e)
          | None =>
              let '(writer, err) := WriteString writer yamlData in
              match err with
              | Some e => Ok (writer, Some e)
              | None => write_groups rest writer
              end
          end
      end
  end.

(** [YAMLReport.WriteReport] once the order of the [range] over the map
    is fixed; the deferred [Flush] runs on every return. *)
Definition WriteReport_in (groups : list (string * list Diff)) (writer : Writer)
  : result (Writer * option string) :=
  let! written := write_groups groups writer in
  Ok (Flush written.1, written.2).

(** [YAMLReport.WriteReport]: Go leaves the order in which [range] visits
    a map unspecified, every entry being visited once, so the outcomes of
    the function are those of [WriteReport_in] at the permutations of the
    entries of the map. *)
Definition WriteReport (report : Report) (writer : Writer)
    (outcome : result (Writer * option string)) : Prop :=
  match consolidateDiff report with
  | Panic msg => outcome = Panic msg
  | Ok fileDiffs =>
      exists groups, groups ≡ₚ map_to_list fileDiffs
                     /\ outcome = WriteReport_in groups writer
  end.

End YAML.

End dyff.

(** * Package cmd *)

Module cmd.

Import dyff.

(** The report writers [writeReport] chooses from.  Their types belong to
    package [dyff]; but for [YAMLReport] they are declared in files that
    are not among the sources, so they are given here with the fields
    [writeReport] sets.  [float64] is the type of [MinorChangeThreshold]. *)
Record HumanReport `{L : Lib} (float64 : Type) : Type := mkHumanReport {
  Human_Report : Report;
  Indent : Z;
  Human_DoNotInspectCerts : bool;
  Human_NoTableStyle : bool;
  Human_OmitHeader : bool;
  Human_UseGoPatchPaths : bool;
  Human_MinorChangeThreshold : float64;
  Human_MultilineContextLines : Z;
  PrefixMultiline : bool
}.
Arguments mkHumanReport {L float64} _ _ _ _ _ _ _ _ _.

Record DiffSyntaxReport `{L : Lib} (float64 : Type) : Type := mkDiffSyntaxReport {
  PathPrefix : string;
  RootDescriptionPrefix : string;
  ChangeTypePrefix : string;
  DiffSyntax_HumanReport : HumanReport float64
}.
Arguments mkDiffSyntaxReport {L float64} _ _ _ _.

(** The values of the interface [dyff.ReportWriter] that [writeReport]
    builds. *)
Inductive ReportWriter `{L : Lib} (float64 : Type) : Type :=
| Human (w : HumanReport float64)
| DiffSyntax (w : DiffSyntaxReport float64)
| YAML (report : Report)
| Brief (report : Report).
Arguments Human {L float64} w.
Arguments DiffSyntax {L float64} w.
Arguments YAML {L float64} report.
Arguments Brief {L float64} report.

(** What [writeReport] uses and the sources do not give: [strings.ToLower],
    [cmd.UsageString()], and the outcome of [reportWriter.WriteReport(os.Stdout)]
    (an error, [None] for [nil], or a panic). *)
Class CmdLib `{L : Lib} : Type := {
  float64 : Type;
  ToLower : string -> string;
  UsageString : string;
  ReportWriter_WriteReport : ReportWriter float64 -> result (option string)
}.

(** The errors [writeReport] returns.  [errorWithExitCode] is declared in a
    file of the package that is not among the sources; the two others are
    built with [fmt.Errorf]. *)
Inductive error : Type :=
| errorWithExitCode (value : Z)
| unknown_output_style (style usage : string)
| failed_to_print_report (err : string).

Section Cmd.

Context `{C : CmdLib}.

(** The fields of [reportConfig] that [writeReport] reads. *)
Record reportConfig : Type := mkReportConfig {
  Style : string;
  NoTableStyle : bool;
  DoNotInspectCerts : bool;
  ExitWithCode : bool;
  OmitHeader : bool;
  UseGoPatchPaths : bool;
  MinorChangeThreshold : float64;
  MultilineContextLines : Z
}.

(** The [HumanReport] inside the three [DiffSyntaxReport] cases. *)
Definition syntax_HumanReport (reportOptions : reportConfig) (report : Report)
  : HumanReport float64 :=
  mkHumanReport report 0 (DoNotInspectCerts reportOptions) true true
    (UseGoPatchPaths reportOptions) (MinorChangeThreshold reportOptions)
    (MultilineContextLines reportOptions) true.

(** The [switch strings.ToLower(reportOptions.Style)]; [None] is its
    [default] case. *)
Definition select_writer (reportOptions : reportConfig) (report : Report)
  : option (ReportWriter float64) :=
  let style := ToLower (Style reportOptions) in
  if bool_decide (style ∈ ["human"; "bosh"]) then
    Some (Human (mkHumanReport report 2 (DoNotInspectCerts reportOptions)
                   (NoTableStyle reportOptions) (OmitHeader reportOptions)
                   (UseGoPatchPaths reportOptions) (MinorChangeThreshold reportOptions)
                   (MultilineContextLines reportOptions) false))
  else if bool_decide (style ∈ ["github"; "linguist"]) then
    Some (DiffSyntax (mkDiffSyntaxReport "@@" "#" "!" (syntax_HumanReport reportOptions report)))
  else if bool_decide (style ∈ ["gitlab"; "rogue"]) then
    Some (DiffSyntax (mkDiffSyntaxReport "=" "=" "#" (syntax_HumanReport reportOptions report)))
  else if bool_decide (style ∈ ["gitea"; "forgejo"]) then
    Some (DiffSyntax (mkDiffSyntaxReport "@@" "=" "!" (syntax_HumanReport reportOptions report)))
  else if bool_decide (style ∈ ["yaml"; "yml"]) then Some (YAML report)
  else if bool_decide (style ∈ ["brief"; "short"; "summary"]) then Some (Brief report)
  else None.

(** [writeReport]: the error it returns, [None] for [nil]. *)
Definition writeReport (reportOptions : reportConfig) (report : Report)
  : result (option error) :=
  match select_writer reportOptions report with
  | None => Ok (Some (unknown_output_style (Style reportOptions) UsageString))
  | Some reportWriter =>
      let! err := ReportWriter_WriteReport reportWriter in
      match err with
      | Some e => Ok (Some (failed_to_print_report e))
      | None =>
          if ExitWithCode reportOptions then
            match length (Diffs report) with
            | 0 => Ok (Some (errorWithExitCode 0))
            | _ => Ok (Some (errorWithExitCode 1))
            end
          else Ok None
      end
  end.

End Cmd.

(** ** The filter stage of [betweenCmd.RunE] *)

Section Between.

Context `{C : CmdLib}.

(** The fields of [reportConfig] that [RunE] reads between the comparison
    and [writeReport]: eight slices, [None] when nil, and two flags. *)
Record reportFilters : Type := mkReportFilters {
  Filters : option (list string);
  FilterRegexps : option (list string);
  Excludes : option (list string);
  ExcludeRegexps : option (list string);
  FilterDocuments : option (list string);
  FilterDocumentRegexps : option (list string);
  ExcludeDocuments : option (list string);
  ExcludeDocumentRegexps : option (list string);
  opt_IgnoreValueChanges : bool;
  opt_IgnoreNewDocuments : bool
}.

(** [if args != nil { report = report.Op(args...) }] *)
Definition when_set (args : option (list string)) (op : Report -> list string -> Report)
    (report : Report) : Report :=
  match args with
  | Some args => op report args
  | None => report
  end.

Definition when_set_regexp (args : option (list string))
    (op : Report -> list string -> result Report) (report : Report) : result Report :=
  match args with
  | Some args => op report args
  | None => Ok report
  end.

(** The ten steps of [RunE] on the report of the comparison, in the order
    of the source. *)
Definition RunE_filters (reportOptions : reportFilters) (report : Report) : result Report :=
  let report := when_set (Filters reportOptions) Filter report in
  let! report := when_set_regexp (FilterRegexps reportOptions) FilterRegexp report in
  let report := when_set (Excludes reportOptions) Exclude report in
  let! report := when_set_regexp (ExcludeRegexps reportOptions) ExcludeRegexp report in
  let report := when_set (FilterDocuments reportOptions) FilterDocument report in
  let! report := when_set_regexp (FilterDocumentRegexps reportOptions)
                   FilterDocumentRegexp report in
  let report := when_set (ExcludeDocuments reportOptions) ExcludeDocument report in
  let! report := when_set_regexp (ExcludeDocumentRegexps reportOptions)
                   ExcludeDocumentRegexp report in
  let report := if opt_IgnoreValueChanges reportOptions
                then IgnoreValueChanges report else report in
  if opt_IgnoreNewDocuments reportOptions then IgnoreNewDocuments report else Ok report.

(** The end of [RunE]: [return writeReport(cmd, report)]. *)
Definition RunE_report (reportOptions : reportConfig) (filters : reportFilters)
    (report : Report) : result (option error) :=
  let! report := RunE_filters filters report in
  writeReport reportOptions report.

End Between.

(** ** [OutputWriter] *)

(** What [OutputWriter.write] takes from [ytbx], [neat], [yaml.v3], [bunt]
    and [os]: the documents of a file of the file system [FS] with the
    error of [ytbx.LoadFile], [os.WriteFile], [ytbx.RestructureObject] (it
    changes the document it is given, which no one else holds), the output
    and the error of the three [neat] processors (the flag is
    [useIndentLines]), and the bytes that [Encode] and [Close] of the
    [yaml.v3] encoder hand to the writer, with their errors. *)
Class OutLib : Type := {
  Document : Type;
  FS : Type;
  LoadFile : FS -> string -> list Document * option string;
  os_WriteFile : FS -> string -> string -> FS * option string;
  RestructureObject : Document -> Document;
  neat_ToCompactJSON : Document -> string * option string;
  neat_ToJSON : bool -> Document -> string * option string;
  neat_ToYAML : bool -> Document -> string * option string;
  yaml_Encode : Document -> string * option string;
  yaml_Close : Document -> string * option string;
  IsStdin : string -> bool;
  bunt_Sprint : string -> string
}.

Record OutputWriter : Type := mkOutputWriter {
  PlainMode : bool;
  Restructure : bool;
  OmitIndentHelper : bool;
  OutputStyle : string
}.

(** The errors of [write], [WriteToStdout] and [WriteInplace]: those of the
    libraries, and the ones wrapped with [fmt.Errorf] and [bunt.Errorf]. *)
Inductive write_error : Type :=
| library_error (err : string)
| failed_to_load_input (file : string) (err : string)
| failed_to_write_output_to_stdout (err : write_error)
| failed_to_write_output (file : string) (err : write_error)
| failed_to_overwrite (file : string) (err : string).

Section Output.

Context `{O : OutLib}.

Definition humanReadableFilename (filename : string) : string :=
  if IsStdin filename then bunt_Sprint "_*stdin*_"
  else bunt_Sprint ("_*" +:+ filename +:+ "*_").

(** [fmt.Fprintf(writer, "%s\n", output)] after a [neat] processor. *)
Definition printed (rendered : string * option string) : string * option write_error :=
  match rendered.2 with
  | Some e => ("", Some (library_error e))
  | None => (rendered.1 +:+ newline, None)
  end.

(** One turn of the loop of [write]: the bytes it hands to the writer and
    the error it returns with.  The [switch] has no default case. *)
Definition write_document (w : OutputWriter) (document : Document)
  : string * option write_error :=
  let document := if Restructure w then RestructureObject document else document in
  if PlainMode w && bool_decide (OutputStyle w = "json") then
    printed (neat_ToCompactJSON document)
  else if PlainMode w && bool_decide (OutputStyle w = "yaml") then
    let '(encoded, err) := yaml_Encode document in
    match err with
    | Some e => ("---" +:+ newline +:+ encoded, Some (library_error e))
    | None =>
        let '(closed, err) := yaml_Close document in
        ("---" +:+ newline +:+ encoded +:+ closed, option_map library_error err)
    end
  else if bool_decide (OutputStyle w = "json") then
    printed (neat_ToJSON (negb (OmitIndentHelper w)) document)
  else if bool_decide (OutputStyle w = "yaml") then
    printed (neat_ToYAML (negb (OmitIndentHelper w)) document)
  else ("", None).

(** The loop of [write] over the documents: what is written, and the
    error at which the loop is left. *)
Fixpoint write_documents (w : OutputWriter) (documents : list Document) (written : string)
  : string * option write_error :=
  match documents with
  | [] => (written, None)
  | document :: rest =>
      let '(bytes, err) := write_document w document in
      match err with
      | Some e => (written +:+ bytes, Some e)
      | None => write_documents w rest (written +:+ bytes)
      end
  end.

(** [OutputWriter.write] on a writer that holds [written]. *)
Definition write (w : OutputWriter) (fs : FS) (written : string) (filename : string)
  : string * option write_error :=
  let '(documents, err) := LoadFile fs filename in
  match err with
  | Some e => (written, Some (failed_to_load_input (humanReadableFilename filename) e))
  | None => write_documents w documents written
  end.

(** [WriteToStdout]: the standard output after the call, and the error. *)
Definition WriteToStdout (w : OutputWriter) (fs : FS) (stdout : string) (filename : string)
  : string * option write_error :=
  let '(stdout, err) := write w fs stdout filename in
  (stdout, option_map failed_to_write_output_to_stdout err).

(** [WriteInplace]: the receiver is a pointer and stays in plain mode; the
    file system is touched by [os.WriteFile] alone, after the buffer is
    flushed. *)
Definition WriteInplace (w : OutputWriter) (fs : FS) (filename : string)
  : OutputWriter * FS * option write_error :=
  let w := {| PlainMode := true;
              Restructure := Restructure w;
              OmitIndentHelper := OmitIndentHelper w;
              OutputStyle := OutputStyle w |} in
  let '(buf, err) := write w fs "" filename in
  match err with
  | Some e => (w, fs, Some (failed_to_write_output (humanReadableFilename filename) e))
  | None =>
      let '(fs, err) := os_WriteFile fs filename buf in
      (w, fs, option_map (failed_to_overwrite (humanReadableFilename filename)) err)
  end.

End Output.

End cmd.

(** * A concrete library, for the examples

    A small stand-in for what the classes leave open: kinds are runes,
    nodes and path elements are strings, a path is a document name with an
    element slice, a pattern is a literal to be found in the string, the
    writer keeps the strings written.  As with [regexp.Compile], the
    pattern ["("] does not compile (its parenthesis is never closed). *)

Module sample.

Import dyff cmd.

Record path : Type := mkPath {
  root : string;
  elements : option (list string)
}.

Definition slash : Ascii.ascii := Ascii.ascii_of_nat 47.

Fixpoint join_elements (es : list string) : string :=
  match es with
  | [] => ""
  | e :: rest => String slash e +:+ join_elements rest
  end.

Definition path_string (p : path) : string :=
  match elements p with
  | None | Some [] => String slash ""
  | Some es => join_elements es
  end.

(** A path string is a slash followed by one element, or the slash alone. *)
Definition parse (s : string) : path * option string :=
  match s with
  | String c rest =>
      if bool_decide (c = slash)
      then (mkPath "" (if bool_decide (rest = "") then None else Some [rest]), None)
      else (mkPath "" None, Some "invalid path")
  | EmptyString => (mkPath "" None, Some "invalid path")
  end.

Definition compile (pattern : string) : option string :=
  if bool_decide (pattern = "(") then None else Some pattern.

Fixpoint contains (re s : string) : bool :=
  String.prefix re s
  || match s with
     | EmptyString => false
     | String _ rest => contains re rest
     end.

Definition lib : Lib :=
  {| KindT := Z;
     zeroKind := 0%Z;
     ADDITION := 43%Z;
     REMOVAL := 45%Z;
     MODIFICATION := 177%Z;
     Node := string;
     InputFile := string;
     PathElement := string;
     ytbx_Path := path;
     PathElements := elements;
     Path_String := path_string;
     RootDescription := root;
     ParsePathStringUnsafe := parse;
     Regexp := string;
     regexp_Compile := compile;
     MatchString := contains |}.

(** The rune of the fourth kind, which the sources at hand never name. *)
Definition ORDERCHANGE : Z := 8646%Z.

Definition yaml_lib : @YAMLLib lib :=
  {| ObjectMeta := string;
     Writer := list string;
     K8sMetaFromName := fun file => (mkK8sMeta "v1" "ConfigMap" file, None);
     ToYAML := fun data => (Metadata data, None);
     WriteString := fun writer s => (writer ++ [s], None);
     Flush := fun writer => writer |}.

(** Every writer succeeds; upper-case letters are left alone. *)
Definition cmd_lib : @CmdLib lib :=
  {| float64 := Z;
     ToLower := fun s => s;
     UsageString := "usage";
     ReportWriter_WriteReport := fun _ => Ok None |}.

Definition detail (from to : option string) (kind : Z) : @Detail lib :=
  @mkDetail lib from to kind.

Definition diff (p : option path) (details : list (@Detail lib)) : @Diff lib :=
  @mkDiff lib p details.

Definition report (diffs : list (@Diff lib)) : @Report lib :=
  @mkReport lib "from.yaml" "to.yaml" diffs.

(** The root of document [a], as the comparison builds it (no element
    slice), and the same with an empty slice of elements. *)
Definition root_a : path := mkPath "a" None.
Definition root_b : path := mkPath "b" None.
Definition list_a : path := mkPath "a" (Some ["list"]).

(** A new document. *)
Definition new_document : @Diff lib :=
  diff (Some root_a) [detail None (Some "v") 43%Z].


(** A lone addition that carries no path. *)
Definition addition_without_path : @Diff lib :=
  diff None [detail None (Some "v") 43%Z].

(** A list that lost an entry, gained one and changed its order: three
    details at one path. *)
Definition list_change : @Diff lib :=
  diff (Some list_a)
    [detail (Some "x") None 45%Z;
     detail None (Some "y") 43%Z;
     detail (Some "p,q") (Some "q,p") ORDERCHANGE].

(** A list that lost an entry and changed its order: two details that are
    not an addition and a removal. *)
Definition list_shrink : @Diff lib :=
  diff (Some list_a)
    [detail (Some "x") None 45%Z;
     detail (Some "p,q") (Some "q,p") ORDERCHANGE].

(** The diff [consolidateDiff] puts in the place of a diff at [list_a]
    with no detail or with three or more. *)
Definition zero_at_list : @Diff lib :=
  diff (Some list_a) [detail None None 0%Z].

(** One diff in document [a], then one in document [b]. *)
Definition diff_a : @Diff lib :=
  diff (Some root_a) [detail (Some "1") (Some "2") 177%Z].

Definition diff_b : @Diff lib :=
  diff (Some root_b) [detail (Some "3") (Some "4") 177%Z].

Definition two_documents : @Report lib := report [diff_a; diff_b].

Definition options (style : string) (exitWithCode : bool) : @reportConfig lib cmd_lib :=
  @mkReportConfig lib cmd_lib style false false exitWithCode false false 0%Z 4%Z.

(** [K8sMetaFromName] that knows no metadata for document [b]. *)
Definition strict_yaml_lib : @YAMLLib lib :=
  {| ObjectMeta := string;
     Writer := list string;
     K8sMetaFromName := fun file =>
       (mkK8sMeta "v1" "ConfigMap" file,
        if bool_decide (file = "b") then Some "no metadata" else None);
     ToYAML := fun data => (Metadata data, None);
     WriteString := fun writer s => (writer ++ [s], None);
     Flush := fun writer => writer |}.

(** Options of the filter stage of [RunE]: none set, the exact path [/],
    and [IgnoreValueChanges]. *)
Definition no_filters : reportFilters :=
  mkReportFilters None None None None None None None None false false.

Definition root_filter : reportFilters :=
  mkReportFilters (Some ["/"]) None None None None None None None false false.

Definition value_filter : reportFilters :=
  mkReportFilters None None None None None None None None true false.

(** An encoder between two delimiters that fails on the document [bad]. *)
Definition encode (opening closing document : string) : string * option string :=
  if bool_decide (document = "bad") then ("", Some "cannot encode")
  else (opening +:+ document +:+ closing, None).

(** Files hold lists of documents; a file that is written holds the bytes
    as its one document. *)
Definition out_lib : OutLib :=
  {| Document := string;
     FS := gmap string (list string);
     LoadFile := fun fs filename =>
       match fs !! filename with
       | Some documents => (documents, None)
       | None => ([], Some "no such file")
       end;
     os_WriteFile := fun fs filename bytes => (<[filename := [bytes]]> fs, None);
     RestructureObject := fun document => document;
     neat_ToCompactJSON := encode "{" "}";
     neat_ToJSON := fun _ => encode "{ " " }";
     neat_ToYAML := fun _ => encode "" "";
     yaml_Encode := encode "" "";
     yaml_Close := fun _ => ("", None);
     IsStdin := fun filename => bool_decide (filename = "-");
     bunt_Sprint := fun s => s |}.

Definition files : gmap string (list string) :=
  <["good" := ["x"; "y"]]> (<["broken" := ["x"; "bad"; "y"]]> ∅).

Definition json_writer : OutputWriter := mkOutputWriter false false false "json".
Definition xml_writer : OutputWriter := mkOutputWriter false false false "xml".

End sample.

(** * The vocabulary of the report specification *)

Module spec.

Import dyff.

Section Vocabulary.

Context `{L : Lib}.

(** What the specification asks of the result of a filter, exclude or ignore
    operation: the same [From] and [To], and diffs that are a subsequence
    of the diffs of the input, in their order. *)
Definition frame (r r' : Report) : Prop :=
  Report_From r' = Report_From r
  /\ Report_To r' = Report_To r
  /\ Diffs r' `sublist_of` Diffs r.


(** "Its detail list is a single ADDITION detail". *)
Definition lone_addition (diff : Diff) : bool :=
  match Details diff with
  | [detail] => bool_decide (Kind detail = ADDITION)
  | _ => false
  end.


(** The path is there and its slice of elements is nil. *)
Definition nil_elements (diff : Diff) : bool :=
  match Path diff with
  | Some p => bool_decide (PathElements p = None)
  | None => false
  end.

(** "The diff belongs to document [file]". *)
Definition in_document (file : string) (diff : Diff) : bool :=
  bool_decide (RootDescription <$> Path diff = Some file).

(** The diff that stands for [diff] in the grouping. *)
Definition consolidated (diff : Diff) : Diff :=
  {| Path := Path diff; Details := [consolidate diff] |}.

(** "Passed through unmodified". *)
Definition passed_through (diff : Diff) : Prop :=
  consolidated diff = diff.

(** "Exactly one ADDITION and one REMOVAL", in either order. *)
Definition addition_removal_pair (details : list Detail) (addition removal : Detail) : Prop :=
  Kind addition = ADDITION
  /\ Kind removal = REMOVAL
  /\ (details = [addition; removal] \/ details = [removal; addition]).

(** The document keys of a report in the order of their first occurrence
    in [Diffs]: the order the specification asks the renderer to follow. *)
Fixpoint first_seen (keys : list string) : list string :=
  match keys with
  | [] => []
  | k :: rest => k :: List.filter (fun k' => negb (bool_decide (k' = k))) (first_seen rest)
  end.

Definition document_keys (report : Report) : list string :=
  first_seen (omap (fun diff => RootDescription <$> Path diff) (Diffs report)).

End Vocabulary.

End spec.

(** * Further vocabulary: what the operations keep *)

Module terms.

Import dyff cmd spec.

Section Terms.

Context `{L : Lib}.

(** A path string of the list parses to a path that renders as the path
    of the diff does. *)
Definition path_named (paths : list string) (diff : Diff) : Prop :=
  exists pathString path p,
    pathString ∈ paths /\ ParsePathStringUnsafe pathString = (path, None)
    /\ Path diff = Some p /\ Path_String path = Path_String p.

(** The diff has a path, in a document that the list names. *)
Definition document_named (names : list string) (diff : Diff) : Prop :=
  exists p, Path diff = Some p /\ RootDescription p ∈ names.

(** A pattern of the list compiles to an expression that matches the
    rendering of the path of the diff. *)
Definition path_matched (pattern : list string) (diff : Diff) : Prop :=
  exists pat re p,
    pat ∈ pattern /\ regexp_Compile pat = Some re
    /\ Path diff = Some p /\ MatchString re (Path_String p) = true.

(** The same for the name of the document of the diff. *)
Definition document_matched (pattern : list string) (diff : Diff) : Prop :=
  exists pat re p,
    pat ∈ pattern /\ regexp_Compile pat = Some re
    /\ Path diff = Some p /\ MatchString re (RootDescription p) = true.

(** One of the details of the diff is a MODIFICATION. *)
Definition value_change (diff : Diff) : Prop :=
  exists detail, detail ∈ Details diff /\ Kind detail = MODIFICATION.

(** The report with the diffs of [r] that [f] accepts. *)
Definition keep (r : Report) (f : Diff -> bool) : Report :=
  {| Report_From := Report_From r;
     Report_To := Report_To r;
     Diffs := List.filter f (Diffs r) |}.

(** The tests of [Filter] and [FilterDocument] on the single diff; the
    empty list accepts every diff. *)
Definition Filter_test (paths : list string) (diff : Diff) : bool :=
  match paths with
  | [] => true
  | _ => Filter_hasPath paths (Path diff)
  end.

Definition FilterDocument_test (names : list string) (diff : Diff) : bool :=
  match names with
  | [] => true
  | _ => FilterDocument_hasPath names (Path diff)
  end.

(** The test of [IgnoreNewDocuments] where it reads no nil pointer. *)
Definition is_new_document (diff : Diff) : bool :=
  lone_addition diff && nil_elements diff.

(** The number of diffs in a grouping. *)
Definition total (m : gmap string (list Diff)) : nat :=
  sum_list_with (fun entry => length entry.2) (map_to_list m).

(** The patterns among the options of the filter stage of [RunE]. *)
Definition patterns (reportOptions : reportFilters) : list string :=
  default [] (FilterRegexps reportOptions) ++ default [] (ExcludeRegexps reportOptions)
  ++ default [] (FilterDocumentRegexps reportOptions)
  ++ default [] (ExcludeDocumentRegexps reportOptions).

End Terms.

(** The cases of the [switch] of [writeReport]. *)
Definition styles : list string :=
  ["human"; "bosh"; "github"; "linguist"; "gitlab"; "rogue"; "gitea"; "forgejo";
   "yaml"; "yml"; "brief"; "short"; "summary"].

Section OutputTerms.

Context `{O : OutLib}.

(** The writer as [WriteInplace] leaves it. *)
Definition plain (w : OutputWriter) : OutputWriter :=
  {| PlainMode := true;
     Restructure := Restructure w;
     OmitIndentHelper := OmitIndentHelper w;
     OutputStyle := OutputStyle w |}.

(** The bytes of the documents, one after the other. *)
Definition rendered (w : OutputWriter) (documents : list Document) : string :=
  foldr (fun document rest => (write_document w document).1 +:+ rest) "" documents.

End OutputTerms.

End terms.

Import terms.

(** * Properties *)

Import dyff cmd spec.

(** ** Loops *)

(** A loop that appends the elements it keeps computes [List.filter]. *)
Lemma fold_left_keep {A : Type} (keep : A -> bool) (xs acc : list A) :
  fold_left (fun acc x => if keep x then acc ++ [x] else acc) xs acc
  = acc ++ List.filter keep xs.
Proof.
  revert acc; induction xs as [|x xs IH]; intros acc; simpl.
  - by rewrite app_nil_r.
  - rewrite IH. destruct (keep x); [by rewrite <- app_assoc | done].
Qed.

Lemma fold_left_drop {A : Type} (drop : A -> bool) (xs acc : list A) :
  fold_left (fun acc x => if drop x then acc else acc ++ [x]) xs acc
  = acc ++ List.filter (fun x => negb (drop x)) xs.
Proof.
  revert acc; induction xs as [|x xs IH]; intros acc; simpl.
  - by rewrite app_nil_r.
  - rewrite IH. destruct (drop x); simpl; [done | by rewrite <- app_assoc].
Qed.

Lemma List_filter_sublist {A : Type} (keep : A -> bool) (xs : list A) :
  List.filter keep xs `sublist_of` xs.
Proof.
  induction xs as [|x xs IH]; simpl; [constructor|].
  destruct (keep x); by constructor.
Qed.

(** The same loop when the test itself may panic: when no test panics it
    ends well, and it has dropped the elements tested [true]. *)
Lemma range_loop_drop {A : Type} (test : A -> result bool) (xs acc : list A) :
  Forall (fun x => is_Ok (test x)) xs ->
  range_loop (fun acc x => let! b := test x in Ok (if b then acc else acc ++ [x])) xs acc
  = Ok (acc ++ List.filter (fun x => negb (tested_true (test x))) xs).
Proof.
  intros Hok; revert acc; induction Hok as [|x xs [b Hb] _ IH]; intros acc; simpl.
  - by rewrite app_nil_r.
  - rewrite Hb; simpl. rewrite IH. destruct b; simpl; [done | by rewrite <- app_assoc].
Qed.

Lemma range_loop_panics {A S : Type} (body : S -> A -> result S) (xs : list A) (acc : S) :
  Exists (fun x => forall acc, exists msg, body acc x = Panic msg) xs ->
  exists msg, range_loop body xs acc = Panic msg.
Proof.
  intros Hex; revert acc; induction Hex as [x xs Hx | x xs _ IH]; intros acc; simpl.
  - destruct (Hx acc) as [msg ->]. by exists msg.
  - destruct (body acc x) as [acc'|msg]; simpl; [apply IH | by exists msg].
Qed.

(** ** The filter engine *)

Section Filters.

Context `{L : Lib}.

Lemma filter_Diffs (r : Report) (hasPath : option ytbx_Path -> bool) :
  Diffs (filter r hasPath) = List.filter (fun diff => hasPath (Path diff)) (Diffs r).
Proof. unfold filter; simpl. by rewrite (fold_left_keep (fun diff => hasPath (Path diff))). Qed.

Lemma filter_frame (r : Report) (hasPath : option ytbx_Path -> bool) :
  frame r (filter r hasPath).
Proof.
  repeat split; rewrite filter_Diffs. apply List_filter_sublist.
Qed.

Lemma filter_ext (r : Report) (hasPath hasPath' : option ytbx_Path -> bool) :
  (forall p, hasPath p = hasPath' p) -> filter r hasPath = filter r hasPath'.
Proof.
  intros Heq. unfold filter. f_equal.
  rewrite !(fold_left_keep (fun diff => _ (Path diff))).
  f_equal. apply List.filter_ext. intros diff; apply Heq.
Qed.

Lemma frame_refl (r : Report) : frame r r.
Proof. by repeat split. Qed.

(** *** Empty argument lists *)

(** C8. Identity law: each of [Filter], [Exclude], [FilterDocument],
    [ExcludeDocument], [FilterRegexp], [ExcludeRegexp],
    [FilterDocumentRegexp] and [ExcludeDocumentRegexp], called with an empty
    argument list, returns the report it was given, unchanged. *)
Theorem empty_arguments_identity (r : Report) :
  Filter r [] = r
  /\ Exclude r [] = r
  /\ FilterDocument r [] = r
  /\ ExcludeDocument r [] = r
  /\ FilterRegexp r [] = Ok r
  /\ ExcludeRegexp r [] = Ok r
  /\ FilterDocumentRegexp r [] = Ok r
  /\ ExcludeDocumentRegexp r [] = Ok r.
Proof. unfold Filter, Exclude, FilterDocument, ExcludeDocument. repeat split. Qed.

(** *** Patterns that do not compile *)

Lemma MustCompile_None (pattern : string) :
  regexp_Compile pattern = None -> MustCompile pattern = Panic regexp_panic.
Proof. unfold MustCompile. by intros ->. Qed.

Lemma MustCompile_Some (pattern : string) (re : Regexp) :
  regexp_Compile pattern = Some re -> MustCompile pattern = Ok re.
Proof. unfold MustCompile. by intros ->. Qed.

Lemma compile_all_panics (pattern : list string) (bad : string) :
  bad ∈ pattern -> regexp_Compile bad = None ->
  exists msg, compile_all pattern = Panic msg.
Proof.
  intros Hin Hbad. apply range_loop_panics, Exists_exists.
  exists bad; split; [done|]. intros acc.
  exists regexp_panic. by rewrite (MustCompile_None _ Hbad).
Qed.

(** Either every pattern compiles, and [compile_all] returns the compiled
    patterns in order, or one does not, and it panics. *)
Lemma compile_loop_cases (pattern : list string) (acc : list Regexp) :
  match range_loop (fun regexps p => let! re := MustCompile p in Ok (regexps ++ [re]))
          pattern acc with
  | Ok regexps =>
      exists compiled, regexps = acc ++ compiled
                       /\ Forall2 (fun p re => regexp_Compile p = Some re) pattern compiled
  | Panic _ => Exists (fun p => regexp_Compile p = None) pattern
  end.
Proof.
  revert acc; induction pattern as [|p pattern IH]; intros acc; simpl.
  - exists []. by rewrite app_nil_r.
  - destruct (regexp_Compile p) as [re|] eqn:Hp.
    + rewrite (MustCompile_Some _ _ Hp); simpl.
      specialize (IH (acc ++ [re])).
      destruct (range_loop _ pattern (acc ++ [re])) as [regexps|msg].
      * destruct IH as (compiled & -> & Hall). exists (re :: compiled).
        split; [by rewrite <- app_assoc | by constructor].
      * by apply Exists_cons_tl.
    + rewrite (MustCompile_None _ Hp); simpl. by apply Exists_cons_hd.
Qed.

Lemma compile_all_cases (pattern : list string) :
  match compile_all pattern with
  | Ok regexps => Forall2 (fun p re => regexp_Compile p = Some re) pattern regexps
  | Panic _ => Exists (fun p => regexp_Compile p = None) pattern
  end.
Proof.
  unfold compile_all. pose proof (compile_loop_cases pattern []) as H.
  destruct (range_loop _ pattern []) as [regexps|msg]; [|done].
  by destruct H as (compiled & -> & Hall).
Qed.

Lemma compile_all_Ok (pattern : list string) :
  Forall (fun p => is_Some (regexp_Compile p)) pattern ->
  exists regexps, compile_all pattern = Ok regexps.
Proof.
  intros Hall. pose proof (compile_all_cases pattern) as H.
  destruct (compile_all pattern) as [regexps|msg]; [by exists regexps|].
  apply Exists_exists in H as (p & Hin & Hnone).
  rewrite Forall_forall in Hall. destruct (Hall p Hin) as [re Hre]. congruence.
Qed.

(** C7. A pattern that does not compile is fatal to [FilterRegexp],
    [ExcludeRegexp], [FilterDocumentRegexp] and [ExcludeDocumentRegexp]:
    the call panics and returns no report, so none in which the pattern
    would merely match nothing. *)
Theorem regexp_pattern_must_compile (r : Report) (pattern : list string) (bad : string) :
  bad ∈ pattern ->
  regexp_Compile bad = None ->
  (exists msg, FilterRegexp r pattern = Panic msg)
  /\ (exists msg, ExcludeRegexp r pattern = Panic msg)
  /\ (exists msg, FilterDocumentRegexp r pattern = Panic msg)
  /\ (exists msg, ExcludeDocumentRegexp r pattern = Panic msg).
Proof.
  intros Hin Hbad.
  destruct (compile_all_panics pattern bad Hin Hbad) as [msg Hmsg].
  unfold FilterRegexp, ExcludeRegexp, FilterDocumentRegexp, ExcludeDocumentRegexp.
  destruct pattern as [|p pattern]; [by apply elem_of_nil in Hin|].
  rewrite Hmsg; simpl. repeat split; by exists msg.
Qed.

(** *** Path strings that do not parse *)

Lemma path_hit_unparseable (bad : string) (filterPath : option ytbx_Path) :
  (ParsePathStringUnsafe bad).2 <> None -> path_hit bad filterPath = false.
Proof.
  unfold path_hit. destruct (ParsePathStringUnsafe bad) as [path [e|]]; simpl; [done|].
  intros H; by destruct H.
Qed.

Lemma Filter_hasPath_skip (before after : list string) (bad : string) filterPath :
  path_hit bad filterPath = false ->
  Filter_hasPath (before ++ bad :: after) filterPath
  = Filter_hasPath (before ++ after) filterPath.
Proof.
  intros Hbad. induction before as [|p before IH]; simpl.
  - by rewrite Hbad.
  - by rewrite IH.
Qed.

Lemma Exclude_hasPath_skip (before after : list string) (bad : string) filterPath :
  path_hit bad filterPath = false ->
  Exclude_hasPath (before ++ bad :: after) filterPath
  = Exclude_hasPath (before ++ after) filterPath.
Proof.
  intros Hbad. induction before as [|p before IH]; simpl.
  - by rewrite Hbad.
  - by rewrite IH.
Qed.

(** C6. A path string that does not parse matches no diff and does not
    make [Filter] or [Exclude] fail: the report they return is the one
    [filter] computes from the other path strings of the list alone. *)
Theorem unparseable_path_matches_nothing
    (r : Report) (before after : list string) (bad : string) :
  (ParsePathStringUnsafe bad).2 <> None ->
  (forall filterPath, path_hit bad filterPath = false)
  /\ Filter r (before ++ bad :: after) = filter r (Filter_hasPath (before ++ after))
  /\ Exclude r (before ++ bad :: after) = filter r (Exclude_hasPath (before ++ after)).
Proof.
  intros Hbad.
  assert (Hhit : forall filterPath, path_hit bad filterPath = false)
    by (intros; by apply path_hit_unparseable).
  split; [done|]. split.
  - transitivity (filter r (Filter_hasPath (before ++ bad :: after))).
    + unfold Filter. by destruct before.
    + apply filter_ext. intros p. by apply Filter_hasPath_skip.
  - transitivity (filter r (Exclude_hasPath (before ++ bad :: after))).
    + unfold Exclude. by destruct before.
    + apply filter_ext. intros p. by apply Exclude_hasPath_skip.
Qed.

(** *** Diffs without a path *)

Lemma Filter_hasPath_None (paths : list string) : Filter_hasPath paths None = false.
Proof.
  induction paths as [|p paths IH]; simpl; [done|].
  unfold path_hit. by destruct (ParsePathStringUnsafe p) as [path [e|]].
Qed.


Lemma FilterDocument_hasPath_None (paths : list string) :
  FilterDocument_hasPath paths None = false.
Proof. induction paths as [|p paths IH]; simpl; done. Qed.









End Filters.

(** ** The two semantic filters *)

Section Ignore.

Context `{L : Lib}.

Lemma IgnoreValueChanges_Diffs (r : Report) :
  Diffs (IgnoreValueChanges r)
  = List.filter (fun diff => negb (hasValChange (Details diff))) (Diffs r).
Proof.
  unfold IgnoreValueChanges; simpl.
  by rewrite (fold_left_drop (fun diff => hasValChange (Details diff))).
Qed.

Lemma IgnoreValueChanges_frame (r : Report) : frame r (IgnoreValueChanges r).
Proof. repeat split. rewrite IgnoreValueChanges_Diffs. apply List_filter_sublist. Qed.

(** [isNewDoc] reads the path only of a diff with a lone addition. *)
Lemma isNewDoc_Ok (diff : Diff) :
  (lone_addition diff = true -> is_Some (Path diff)) ->
  isNewDoc diff = Ok (lone_addition diff && nil_elements diff).
Proof.
  unfold isNewDoc, lone_addition, nil_elements.
  destruct (Details diff) as [|detail [|detail' details]]; [done| |done].
  case_bool_decide; [|done]. intros Hpath.
  destruct (Hpath eq_refl) as [p ->]. done.
Qed.

Lemma isNewDoc_Panic (diff : Diff) :
  lone_addition diff = true -> Path diff = None ->
  isNewDoc diff = Panic nil_dereference.
Proof.
  unfold isNewDoc, lone_addition.
  destruct (Details diff) as [|detail [|detail' details]]; [done| |done].
  case_bool_decide; [|done]. by intros _ ->.
Qed.

Lemma IgnoreNewDocuments_Ok (r : Report) :
  Forall (fun diff => lone_addition diff = true -> is_Some (Path diff)) (Diffs r) ->
  IgnoreNewDocuments r
  = Ok {| Report_From := Report_From r;
          Report_To := Report_To r;
          Diffs := List.filter (fun diff => negb (lone_addition diff && nil_elements diff))
                     (Diffs r) |}.
Proof.
  intros Hpaths. unfold IgnoreNewDocuments.
  rewrite (range_loop_drop isNewDoc); simpl.
  - do 2 f_equal. apply List.filter_ext_in. intros diff Hin.
    rewrite Forall_forall in Hpaths.
    rewrite isNewDoc_Ok; [|apply Hpaths; by apply list_elem_of_In].
    simpl. by destruct (lone_addition diff && nil_elements diff).
  - eapply Forall_impl; [exact Hpaths|]. intros diff Hpath.
    eexists. by apply isNewDoc_Ok.
Qed.

(** The case the sibling filters guard against and [IgnoreNewDocuments]
    does not: a lone addition without a path stops the whole call. *)
Lemma IgnoreNewDocuments_Panic (r : Report) :
  Exists (fun diff => lone_addition diff = true /\ Path diff = None) (Diffs r) ->
  exists msg, IgnoreNewDocuments r = Panic msg.
Proof.
  intros Hex. unfold IgnoreNewDocuments.
  destruct (range_loop_panics
              (fun acc diff => let! new := isNewDoc diff in
                               Ok (if new then acc else acc ++ [diff]))
              (Diffs r) []) as [msg Hmsg].
  - eapply Exists_impl; [exact Hex|]. intros diff [Hlone Hnil] acc.
    exists nil_dereference. by rewrite isNewDoc_Panic.
  - exists msg. by rewrite Hmsg.
Qed.



End Ignore.

(** ** Consolidation *)

Section Consolidation.

Context `{L : Lib}.

(** A diff with one detail stands for itself. *)
Lemma consolidated_one_detail (diff : Diff) (detail : Detail) :
  Details diff = [detail] -> passed_through diff.
Proof.
  unfold passed_through, consolidated, consolidate. intros Hone. rewrite Hone.
  destruct diff as [p details]; simpl in *. by rewrite Hone.
Qed.

(** An addition and a removal, in either order, become one modification
    from the value removed to the value added. *)
Lemma consolidated_pair (diff : Diff) (addition removal : Detail) :
  REMOVAL <> ADDITION ->
  addition_removal_pair (Details diff) addition removal ->
  consolidated diff
  = {| Path := Path diff;
       Details := [{| From := From removal; To := To addition; Kind := MODIFICATION |}] |}.
Proof.
  intros Hne (Hadd & Hrem & Horder). unfold consolidated, consolidate.
  destruct Horder as [-> | ->]; simpl; unfold merge_detail; simpl;
    rewrite ?Hadd, ?Hrem;
    repeat (first [ rewrite bool_decide_eq_true_2 by done
                  | rewrite bool_decide_eq_false_2 by done ]; simpl);
    done.
Qed.

(** The [switch] has no case for any other length: the zero detail stays. *)
Lemma consolidated_other (diff : Diff) :
  length (Details diff) = 0 \/ 3 <= length (Details diff) ->
  consolidated diff = {| Path := Path diff; Details := [zeroDetail] |}.
Proof.
  unfold consolidated, consolidate.
  destruct (Details diff) as [|d1 [|d2 [|d3 details]]]; simpl; intros [?|?]; done || lia.
Qed.

Lemma consolidated_length (diff : Diff) : length (Details (consolidated diff)) = 1.
Proof. done. Qed.

Lemma in_document_key (diff : Diff) (p : ytbx_Path) (file : string) :
  Path diff = Some p ->
  in_document file diff = bool_decide (RootDescription p = file).
Proof.
  unfold in_document. intros ->; simpl.
  apply bool_decide_ext. split; congruence.
Qed.

(** What the loop of [consolidateDiff] leaves at a key: what was there,
    followed by the diffs of that document, consolidated, in their order. *)
Lemma consolidate_loop_lookup (diffs : list Diff) (m0 m : gmap string (list Diff))
    (file : string) :
  range_loop consolidate_step diffs m0 = Ok m ->
  m !! file = match List.filter (in_document file) diffs with
              | [] => m0 !! file
              | group => Some (default [] (m0 !! file) ++ map consolidated group)
              end.
Proof.
  revert m0; induction diffs as [|diff diffs IH]; intros m0; simpl.
  - congruence.
  - unfold consolidate_step at 1.
    destruct (Path diff) as [p|] eqn:Hp; simpl; [|discriminate].
    intros Hloop. rewrite (IH _ Hloop), (in_document_key diff p file Hp).
    case_bool_decide as Hkey.
    + subst file. rewrite lookup_insert_eq; simpl.
      assert (Hc : consolidated diff = {| Path := Some p; Details := [consolidate diff] |})
        by (unfold consolidated; by rewrite Hp).
      rewrite Hc. destruct (List.filter _ diffs); simpl; by rewrite <- ?app_assoc.
    + by rewrite lookup_insert_ne.
Qed.

Lemma consolidateDiff_lookup (report : Report) (fileDiffs : gmap string (list Diff))
    (file : string) :
  consolidateDiff report = Ok fileDiffs ->
  fileDiffs !! file = match List.filter (in_document file) (Diffs report) with
                      | [] => None
                      | group => Some (map consolidated group)
                      end.
Proof.
  intros Hm. rewrite (consolidate_loop_lookup _ _ _ file Hm), lookup_empty.
  by destruct (List.filter _ _).
Qed.

(** [consolidateDiff] returns a grouping when every diff carries a path... *)
Lemma consolidate_loop_Ok (diffs : list Diff) (m0 : gmap string (list Diff)) :
  Forall (fun diff => is_Some (Path diff)) diffs ->
  is_Ok (range_loop consolidate_step diffs m0).
Proof.
  intros Hpaths; revert m0; induction Hpaths as [|diff diffs [p Hp] _ IH]; intros m0; simpl.
  - by eexists.
  - unfold consolidate_step at 1. rewrite Hp; simpl. apply IH.
Qed.

Lemma consolidateDiff_Ok (report : Report) :
  Forall (fun diff => is_Some (Path diff)) (Diffs report) ->
  is_Ok (consolidateDiff report).
Proof. apply consolidate_loop_Ok. Qed.

(** ... and panics when one does not. *)
Lemma consolidateDiff_Panic (report : Report) :
  Exists (fun diff => Path diff = None) (Diffs report) ->
  exists msg, consolidateDiff report = Panic msg.
Proof.
  intros Hex. apply range_loop_panics.
  eapply Exists_impl; [exact Hex|]. intros diff Hnil acc.
  exists nil_dereference. unfold consolidate_step. by rewrite Hnil.
Qed.

(** C9. Every group of the grouping [consolidateDiff] returns lists the
    diffs of its document in their order, each replaced by a diff with
    exactly one detail; for a diff with no detail, or with three or more,
    that detail is the zero value: no kind, no [From], no [To]. *)
Theorem consolidateDiff_one_detail_per_diff
    (report : Report) (fileDiffs : gmap string (list Diff)) :
  consolidateDiff report = Ok fileDiffs ->
  (forall file diffs,
      fileDiffs !! file = Some diffs ->
      diffs = map consolidated (List.filter (in_document file) (Diffs report))
      /\ Forall (fun diff => length (Details diff) = 1) diffs)
  /\ (forall diff,
        length (Details diff) = 0 \/ 3 <= length (Details diff) ->
        consolidated diff
        = {| Path := Path diff;
             Details := [{| From := None; To := None; Kind := zeroKind |}] |}).
Proof.
  intros Hm. split.
  - intros file diffs Hfile. rewrite (consolidateDiff_lookup _ _ file Hm) in Hfile.
    assert (Hdiffs : diffs = map consolidated (List.filter (in_document file) (Diffs report))).
    { destruct (List.filter _ _); [discriminate | by injection Hfile]. }
    split; [done|]. rewrite Hdiffs. apply Forall_forall. intros diff Hin.
    apply list_elem_of_fmap in Hin as (diff' & -> & _). apply consolidated_length.
  - intros diff Hlen. by apply consolidated_other.
Qed.

End Consolidation.

(** ** The exit code *)

Section ExitCode.

Context `{C : CmdLib}.

(** C4. Once the report is written, [writeReport] with [ExitWithCode] set
    returns the exit code 0 for a report without diffs and 1 for a report
    with diffs; with [ExitWithCode] unset it returns no error, and no exit
    code 0 or 1 in any case, whatever the diffs. *)
Theorem exit_code_gating (reportOptions : reportConfig) (report : Report)
    (reportWriter : ReportWriter float64) :
  select_writer reportOptions report = Some reportWriter ->
  ReportWriter_WriteReport reportWriter = Ok None ->
  writeReport reportOptions report
  = Ok (if ExitWithCode reportOptions
        then Some (errorWithExitCode (match Diffs report with [] => 0 | _ => 1 end))
        else None)
  /\ (ExitWithCode reportOptions = false ->
      forall report' value,
        writeReport reportOptions report' <> Ok (Some (errorWithExitCode value))).
Proof.
  intros Hselect Hwrite. split.
  - unfold writeReport. rewrite Hselect, Hwrite; simpl.
    destruct (ExitWithCode reportOptions); [|done]. by destruct (Diffs report).
  - intros Hoff report' value. unfold writeReport. rewrite Hoff.
    destruct (select_writer reportOptions report') as [w|]; [|done].
    destruct (ReportWriter_WriteReport w) as [[e|]|msg]; done.
Qed.

End ExitCode.

(** * What else the code shows *)

(** ** The algebra of the filter engine *)


Lemma List_filter_filter {A : Type} (f g : A -> bool) (xs : list A) :
  List.filter g (List.filter f xs) = List.filter (fun x => f x && g x) xs.
Proof.
  induction xs as [|x xs IH]; simpl; [done|].
  destruct (f x); simpl; [|done]. destruct (g x); by rewrite IH.
Qed.

Lemma List_filter_partition {A : Type} (f : A -> bool) (xs : list A) :
  List.filter f xs ++ List.filter (fun x => negb (f x)) xs ≡ₚ xs.
Proof.
  induction xs as [|x xs IH]; simpl; [done|].
  destruct (f x); simpl.
  - by rewrite IH.
  - by rewrite <- Permutation_middle, IH.
Qed.

Lemma List_filter_all {A : Type} (f : A -> bool) (xs : list A) :
  (forall x, x ∈ xs -> f x = true) -> List.filter f xs = xs.
Proof.
  induction xs as [|x xs IH]; simpl; [done|]. intros Hall.
  rewrite (Hall x) by apply list_elem_of_here.
  rewrite IH; [done|]. intros y Hy. apply Hall. by apply list_elem_of_further.
Qed.

Lemma List_filter_none {A : Type} (f : A -> bool) (xs : list A) :
  (forall x, x ∈ xs -> f x = false) -> List.filter f xs = [].
Proof.
  induction xs as [|x xs IH]; simpl; [done|]. intros Hall.
  rewrite (Hall x) by apply list_elem_of_here.
  apply IH. intros y Hy. apply Hall. by apply list_elem_of_further.
Qed.

Section FilterAlgebra.

Context `{L : Lib}.

Lemma Report_eq (r r' : Report) :
  Report_From r = Report_From r' -> Report_To r = Report_To r' -> Diffs r = Diffs r' ->
  r = r'.
Proof. destruct r, r'; simpl; congruence. Qed.

Lemma filter_filter (r : Report) (f g : option ytbx_Path -> bool) :
  filter (filter r f) g = filter r (fun p => f p && g p).
Proof.
  apply Report_eq; [done..|]. rewrite !filter_Diffs. apply List_filter_filter.
Qed.

Lemma filter_comm (r : Report) (f g : option ytbx_Path -> bool) :
  filter (filter r f) g = filter (filter r g) f.
Proof.
  rewrite !filter_filter. apply filter_ext. intros p. apply andb_comm.
Qed.

Lemma filter_all (r : Report) (f : option ytbx_Path -> bool) :
  (forall diff, diff ∈ Diffs r -> f (Path diff) = true) -> filter r f = r.
Proof.
  intros Hall. apply Report_eq; [done..|]. rewrite filter_Diffs.
  by apply List_filter_all.
Qed.

(** The closures as disjunctions over the argument list. *)
Lemma Filter_hasPath_existsb (paths : list string) (fp : option ytbx_Path) :
  Filter_hasPath paths fp = existsb (fun p => path_hit p fp) paths.
Proof. induction paths as [|p paths IH]; simpl; [done|]. by destruct (path_hit p fp). Qed.

Lemma Exclude_hasPath_negb (paths : list string) (fp : option ytbx_Path) :
  Exclude_hasPath paths fp = negb (Filter_hasPath paths fp).
Proof. induction paths as [|p paths IH]; simpl; [done|]. by destruct (path_hit p fp). Qed.

Lemma FilterDocument_hasPath_existsb (paths : list string) (fp : option ytbx_Path) :
  FilterDocument_hasPath paths fp = existsb (fun p => document_hit p fp) paths.
Proof. induction paths as [|p paths IH]; simpl; [done|]. by destruct (document_hit p fp). Qed.

Lemma ExcludeDocument_hasPath_negb (paths : list string) (fp : option ytbx_Path) :
  ExcludeDocument_hasPath paths fp = negb (FilterDocument_hasPath paths fp).
Proof. induction paths as [|p paths IH]; simpl; [done|]. by destruct (document_hit p fp). Qed.

Lemma FilterRegexp_hasPath_existsb (regexps : list Regexp) (fp : option ytbx_Path) :
  FilterRegexp_hasPath regexps fp = existsb (fun re => regexp_hit re fp) regexps.
Proof. induction regexps as [|re res IH]; simpl; [done|]. by destruct (regexp_hit re fp). Qed.

Lemma ExcludeRegexp_hasPath_negb (regexps : list Regexp) (fp : option ytbx_Path) :
  ExcludeRegexp_hasPath regexps fp = negb (FilterRegexp_hasPath regexps fp).
Proof. induction regexps as [|re res IH]; simpl; [done|]. by destruct (regexp_hit re fp). Qed.

Lemma FilterDocumentRegexp_hasPath_existsb (regexps : list Regexp) (fp : option ytbx_Path) :
  FilterDocumentRegexp_hasPath regexps fp
  = existsb (fun re => document_regexp_hit re fp) regexps.
Proof.
  induction regexps as [|re res IH]; simpl; [done|]. by destruct (document_regexp_hit re fp).
Qed.

Lemma ExcludeDocumentRegexp_hasPath_negb (regexps : list Regexp) (fp : option ytbx_Path) :
  ExcludeDocumentRegexp_hasPath regexps fp = negb (FilterDocumentRegexp_hasPath regexps fp).
Proof.
  induction regexps as [|re res IH]; simpl; [done|]. by destruct (document_regexp_hit re fp).
Qed.

Lemma path_hit_true (pathString : string) (fp : option ytbx_Path) :
  path_hit pathString fp = true
  <-> exists path p, ParsePathStringUnsafe pathString = (path, None)
                     /\ fp = Some p /\ Path_String path = Path_String p.
Proof.
  unfold path_hit. destruct (ParsePathStringUnsafe pathString) as [path [e|]].
  - split; [done|]. intros (path' & p & Heq & _); congruence.
  - destruct fp as [p|].
    + rewrite bool_decide_eq_true. split.
      * intros Hs. by exists path, p.
      * intros (path' & p' & Heq & Hp & Hs). congruence.
    + split; [done|]. intros (path' & p & _ & Hp & _); congruence.
Qed.

Lemma Filter_hasPath_true (paths : list string) (fp : option ytbx_Path) :
  Filter_hasPath paths fp = true
  <-> exists pathString path p,
        pathString ∈ paths /\ ParsePathStringUnsafe pathString = (path, None)
        /\ fp = Some p /\ Path_String path = Path_String p.
Proof.
  rewrite Filter_hasPath_existsb, existsb_exists. split.
  - intros (pathString & Hin & Hhit). apply path_hit_true in Hhit as (path & p & ?).
    exists pathString, path, p. split; [by apply list_elem_of_In | done].
  - intros (pathString & path & p & Hin & Hrest). exists pathString.
    split; [by apply list_elem_of_In|]. apply path_hit_true. by exists path, p.
Qed.

Lemma elem_of_filter_Diffs (r : Report) (f : option ytbx_Path -> bool) (diff : Diff) :
  diff ∈ Diffs (filter r f) <-> diff ∈ Diffs r /\ f (Path diff) = true.
Proof.
  rewrite filter_Diffs, !list_elem_of_In, List.filter_In. done.
Qed.

(** X1. With a non-empty list of path strings, [Filter] keeps exactly the
    diffs whose path renders as the parse of one of the strings does, and
    [Exclude] keeps exactly the others. *)
Theorem Filter_keeps_the_paths_named (r : Report) (paths : list string) (diff : Diff) :
  paths <> [] ->
  (diff ∈ Diffs (Filter r paths) <-> diff ∈ Diffs r /\ path_named paths diff)
  /\ (diff ∈ Diffs (Exclude r paths) <-> diff ∈ Diffs r /\ ~ path_named paths diff).
Proof.
  intros Hne. destruct paths as [|p0 paths]; [done|].
  unfold Filter, Exclude. rewrite !elem_of_filter_Diffs, Exclude_hasPath_negb.
  pose proof (Filter_hasPath_true (p0 :: paths) (Path diff)) as Hiff.
  fold (path_named (p0 :: paths) diff) in Hiff. split.
  - by rewrite Hiff.
  - by rewrite negb_true_iff, <- Hiff, not_true_iff_false.
Qed.

Lemma document_hit_true (name : string) (fp : option ytbx_Path) :
  document_hit name fp = true <-> exists p, fp = Some p /\ RootDescription p = name.
Proof.
  unfold document_hit. destruct fp as [p|].
  - rewrite bool_decide_eq_true. split.
    + intros ->. by exists p.
    + intros (p' & Hp & <-). congruence.
  - split; [done|]. intros (p & Hp & _); congruence.
Qed.

Lemma FilterDocument_hasPath_true (names : list string) (diff : Diff) :
  FilterDocument_hasPath names (Path diff) = true <-> document_named names diff.
Proof.
  rewrite FilterDocument_hasPath_existsb, existsb_exists. unfold document_named. split.
  - intros (name & Hin & Hhit). apply document_hit_true in Hhit as (p & Hp & <-).
    exists p. split; [done | by apply list_elem_of_In].
  - intros (p & Hp & Hin). exists (RootDescription p).
    split; [by apply list_elem_of_In|]. apply document_hit_true. by exists p.
Qed.

(** X2. With a non-empty list of names, [FilterDocument] keeps exactly
    the diffs that have a path in a document of that name, and
    [ExcludeDocument] keeps exactly the others. *)
Theorem FilterDocument_keeps_the_documents_named
    (r : Report) (names : list string) (diff : Diff) :
  names <> [] ->
  (diff ∈ Diffs (FilterDocument r names) <-> diff ∈ Diffs r /\ document_named names diff)
  /\ (diff ∈ Diffs (ExcludeDocument r names)
      <-> diff ∈ Diffs r /\ ~ document_named names diff).
Proof.
  intros Hne. destruct names as [|n0 names]; [done|].
  unfold FilterDocument, ExcludeDocument.
  rewrite !elem_of_filter_Diffs, ExcludeDocument_hasPath_negb.
  pose proof (FilterDocument_hasPath_true (n0 :: names) diff) as Hiff. split.
  - by rewrite Hiff.
  - by rewrite negb_true_iff, <- Hiff, not_true_iff_false.
Qed.

(** The patterns that compiled, seen from the expressions. *)
Lemma Forall2_compiled_hit (hit : Regexp -> bool) (pattern : list string)
    (regexps : list Regexp) :
  Forall2 (fun p re => regexp_Compile p = Some re) pattern regexps ->
  existsb hit regexps = true
  <-> exists pat re, pat ∈ pattern /\ regexp_Compile pat = Some re /\ hit re = true.
Proof.
  intros Hall. induction Hall as [|p re pattern regexps Hp Hall IH]; simpl.
  - split; [done|]. intros (pat & re & Hin & _). by apply elem_of_nil in Hin.
  - rewrite orb_true_iff, IH. split.
    + intros [Hhit | (pat & re' & Hin & Hc & Hhit)].
      * exists p, re. split; [apply list_elem_of_here | done].
      * exists pat, re'. split; [by apply list_elem_of_further | done].
    + intros (pat & re' & Hin & Hc & Hhit). apply elem_of_cons in Hin as [-> | Hin].
      * left. congruence.
      * right. by exists pat, re'.
Qed.

Lemma compile_all_Forall2 (pattern : list string) (regexps : list Regexp) :
  compile_all pattern = Ok regexps ->
  Forall2 (fun p re => regexp_Compile p = Some re) pattern regexps.
Proof. intros H. pose proof (compile_all_cases pattern) as Hc. by rewrite H in Hc. Qed.

Lemma FilterRegexp_hasPath_true (pattern : list string) (regexps : list Regexp)
    (diff : Diff) :
  compile_all pattern = Ok regexps ->
  FilterRegexp_hasPath regexps (Path diff) = true <-> path_matched pattern diff.
Proof.
  intros Hc. rewrite FilterRegexp_hasPath_existsb,
    (Forall2_compiled_hit _ pattern regexps (compile_all_Forall2 _ _ Hc)).
  unfold path_matched, regexp_hit. split.
  - intros (pat & re & Hin & Hre & Hhit). destruct (Path diff) as [p|]; [|done].
    by exists pat, re, p.
  - intros (pat & re & p & Hin & Hre & Hp & Hm). exists pat, re. by rewrite Hp.
Qed.

Lemma FilterDocumentRegexp_hasPath_true (pattern : list string) (regexps : list Regexp)
    (diff : Diff) :
  compile_all pattern = Ok regexps ->
  FilterDocumentRegexp_hasPath regexps (Path diff) = true <-> document_matched pattern diff.
Proof.
  intros Hc. rewrite FilterDocumentRegexp_hasPath_existsb,
    (Forall2_compiled_hit _ pattern regexps (compile_all_Forall2 _ _ Hc)).
  unfold document_matched, document_regexp_hit. split.
  - intros (pat & re & Hin & Hre & Hhit). destruct (Path diff) as [p|]; [|done].
    by exists pat, re, p.
  - intros (pat & re & p & Hin & Hre & Hp & Hm). exists pat, re. by rewrite Hp.
Qed.

(** X3. With a non-empty list of patterns that all compile, the four
    operations on patterns return a report: [FilterRegexp] keeps exactly the
    diffs whose rendered path one of the patterns matches, [ExcludeRegexp]
    the others, and the two document operations do the same with the name
    of the document. *)
Theorem regexp_operations_keep_the_matches
    (r : Report) (pattern : list string) (diff : Diff) :
  pattern <> [] ->
  Forall (fun p => is_Some (regexp_Compile p)) pattern ->
  (exists r', FilterRegexp r pattern = Ok r'
              /\ (diff ∈ Diffs r' <-> diff ∈ Diffs r /\ path_matched pattern diff))
  /\ (exists r', ExcludeRegexp r pattern = Ok r'
                 /\ (diff ∈ Diffs r' <-> diff ∈ Diffs r /\ ~ path_matched pattern diff))
  /\ (exists r', FilterDocumentRegexp r pattern = Ok r'
                 /\ (diff ∈ Diffs r' <-> diff ∈ Diffs r /\ document_matched pattern diff))
  /\ (exists r', ExcludeDocumentRegexp r pattern = Ok r'
                 /\ (diff ∈ Diffs r'
                     <-> diff ∈ Diffs r /\ ~ document_matched pattern diff)).
Proof.
  intros Hne Hall. destruct (compile_all_Ok pattern Hall) as [regexps Hc].
  pose proof (FilterRegexp_hasPath_true pattern regexps diff Hc) as Hpath.
  pose proof (FilterDocumentRegexp_hasPath_true pattern regexps diff Hc) as Hdoc.
  unfold FilterRegexp, ExcludeRegexp, FilterDocumentRegexp, ExcludeDocumentRegexp.
  destruct pattern as [|p0 pattern]; [done|]. rewrite Hc; simpl bind; cbv beta.
  repeat split; eexists; (split; [reflexivity|]);
    rewrite elem_of_filter_Diffs,
      ?ExcludeRegexp_hasPath_negb, ?ExcludeDocumentRegexp_hasPath_negb, ?negb_true_iff.
  - by rewrite Hpath.
  - by rewrite <- Hpath, not_true_iff_false.
  - by rewrite Hdoc.
  - by rewrite <- Hdoc, not_true_iff_false.
Qed.

(** Each operation keeps the diffs that a test on the single diff accepts. *)
Lemma filter_keep (r : Report) (f : option ytbx_Path -> bool) :
  filter r f = keep r (fun diff => f (Path diff)).
Proof. apply Report_eq; [done..|]. apply filter_Diffs. Qed.

Lemma IgnoreValueChanges_keep (r : Report) :
  IgnoreValueChanges r = keep r (fun diff => negb (hasValChange (Details diff))).
Proof. apply Report_eq; [done..|]. apply IgnoreValueChanges_Diffs. Qed.

Lemma keep_keep (r : Report) (f g : Diff -> bool) :
  keep (keep r f) g = keep r (fun diff => f diff && g diff).
Proof. apply Report_eq; [done..|]. apply List_filter_filter. Qed.

Lemma keep_comm (r : Report) (f g : Diff -> bool) :
  keep (keep r f) g = keep (keep r g) f.
Proof.
  rewrite !keep_keep. apply Report_eq; [done..|]. simpl.
  apply List.filter_ext. intros diff. apply andb_comm.
Qed.

Lemma keep_ext (r : Report) (f g : Diff -> bool) :
  (forall diff, diff ∈ Diffs r -> f diff = g diff) -> keep r f = keep r g.
Proof.
  intros Heq. apply Report_eq; [done..|]. simpl.
  apply List.filter_ext_in. intros diff Hin. apply Heq. by apply list_elem_of_In.
Qed.

Lemma keep_all (r : Report) (f : Diff -> bool) :
  (forall diff, diff ∈ Diffs r -> f diff = true) -> keep r f = r.
Proof. intros Hall. apply Report_eq; [done..|]. by apply List_filter_all. Qed.


Lemma Filter_as_keep (r : Report) (paths : list string) :
  Filter r paths = keep r (Filter_test paths).
Proof.
  destruct paths as [|p paths]; simpl.
  - symmetry. by apply keep_all.
  - apply filter_keep.
Qed.

Lemma Exclude_as_keep (r : Report) (paths : list string) :
  Exclude r paths = keep r (fun diff => Exclude_hasPath paths (Path diff)).
Proof.
  destruct paths as [|p paths]; simpl.
  - symmetry. by apply keep_all.
  - apply filter_keep.
Qed.

Lemma FilterDocument_as_keep (r : Report) (names : list string) :
  FilterDocument r names = keep r (FilterDocument_test names).
Proof.
  destruct names as [|n names]; simpl.
  - symmetry. by apply keep_all.
  - apply filter_keep.
Qed.

Lemma ExcludeDocument_as_keep (r : Report) (names : list string) :
  ExcludeDocument r names = keep r (fun diff => ExcludeDocument_hasPath names (Path diff)).
Proof.
  destruct names as [|n names]; simpl.
  - symmetry. by apply keep_all.
  - apply filter_keep.
Qed.

(** X4. With a non-empty argument list, [Filter] and [Exclude] split the
    diffs of the report between them, and so do [FilterDocument] and
    [ExcludeDocument]: no diff is in both results or in none. *)
Theorem Filter_and_Exclude_split_the_report (r : Report) (args : list string) :
  args <> [] ->
  Diffs (Filter r args) ++ Diffs (Exclude r args) ≡ₚ Diffs r
  /\ Diffs (FilterDocument r args) ++ Diffs (ExcludeDocument r args) ≡ₚ Diffs r.
Proof.
  intros Hne. destruct args as [|a args]; [done|].
  unfold Filter, Exclude, FilterDocument, ExcludeDocument. rewrite !filter_Diffs. split.
  - erewrite (List.filter_ext (fun diff => Exclude_hasPath _ _)).
    + apply List_filter_partition.
    + intros diff. apply Exclude_hasPath_negb.
  - erewrite (List.filter_ext (fun diff => ExcludeDocument_hasPath _ _)).
    + apply List_filter_partition.
    + intros diff. apply ExcludeDocument_hasPath_negb.
Qed.

(** X5. With a non-empty argument list, [Exclude] after [Filter] with the
    same arguments, or [Filter] after [Exclude], leaves no diff; the same
    holds for the document operations. *)
Theorem Exclude_undoes_Filter (r : Report) (args : list string) :
  args <> [] ->
  Diffs (Exclude (Filter r args) args) = []
  /\ Diffs (Filter (Exclude r args) args) = []
  /\ Diffs (ExcludeDocument (FilterDocument r args) args) = []
  /\ Diffs (FilterDocument (ExcludeDocument r args) args) = [].
Proof.
  intros Hne. destruct args as [|a args]; [done|].
  unfold Filter, Exclude, FilterDocument, ExcludeDocument.
  rewrite !filter_filter, !filter_Diffs.
  repeat split; apply List_filter_none; intros diff _;
    rewrite ?Exclude_hasPath_negb, ?ExcludeDocument_hasPath_negb;
    first [ apply andb_negb_r | apply andb_negb_l ].
Qed.

Lemma Exclude_hasPath_app (A B : list string) (fp : option ytbx_Path) :
  Exclude_hasPath (A ++ B) fp = Exclude_hasPath A fp && Exclude_hasPath B fp.
Proof.
  induction A as [|a A IH]; simpl; [done|]. by destruct (path_hit a fp).
Qed.

Lemma ExcludeDocument_hasPath_app (A B : list string) (fp : option ytbx_Path) :
  ExcludeDocument_hasPath (A ++ B) fp
  = ExcludeDocument_hasPath A fp && ExcludeDocument_hasPath B fp.
Proof.
  induction A as [|a A IH]; simpl; [done|]. by destruct (document_hit a fp).
Qed.

(** X6. Excluding twice is excluding the two lists at once, for any two
    lists, empty or not. *)
Theorem Exclude_twice_is_Exclude_of_both (r : Report) (A B : list string) :
  Exclude (Exclude r A) B = Exclude r (A ++ B)
  /\ ExcludeDocument (ExcludeDocument r A) B = ExcludeDocument r (A ++ B).
Proof.
  rewrite !Exclude_as_keep, !ExcludeDocument_as_keep, !keep_keep. split.
  - apply keep_ext. intros diff _. symmetry. apply Exclude_hasPath_app.
  - apply keep_ext. intros diff _. symmetry. apply ExcludeDocument_hasPath_app.
Qed.

Lemma existsb_same_elements {A : Type} (f : A -> bool) (xs ys : list A) :
  (forall x, x ∈ xs <-> x ∈ ys) -> existsb f xs = existsb f ys.
Proof.
  intros Hsame. apply eq_true_iff_eq. rewrite !existsb_exists.
  split; intros (x & Hin & Hf); exists x; (split; [|done]);
    apply list_elem_of_In, Hsame, list_elem_of_In, Hin.
Qed.

Lemma same_elements_nil {A : Type} (ys : list A) :
  (forall x, x ∈ [] <-> x ∈ ys) -> ys = [].
Proof.
  destruct ys as [|y ys]; [done|]. intros Hsame.
  exfalso. eapply elem_of_nil, Hsame, list_elem_of_here.
Qed.

(** X7. Only the set of the arguments counts: lists with the same
    members, in any order and with any repetition, give the same report. *)
Theorem only_the_set_of_arguments_counts (r : Report) (args args' : list string) :
  (forall a, a ∈ args <-> a ∈ args') ->
  Filter r args = Filter r args'
  /\ Exclude r args = Exclude r args'
  /\ FilterDocument r args = FilterDocument r args'
  /\ ExcludeDocument r args = ExcludeDocument r args'.
Proof.
  intros Hsame.
  destruct args as [|a args].
  { by rewrite (same_elements_nil args' Hsame). }
  destruct args' as [|a' args'].
  { by pose proof (same_elements_nil (a :: args) (fun x => iff_sym (Hsame x))). }
  unfold Filter, Exclude, FilterDocument, ExcludeDocument.
  repeat split; apply filter_ext; intros fp;
    rewrite ?Exclude_hasPath_negb, ?ExcludeDocument_hasPath_negb,
      ?Filter_hasPath_existsb, ?FilterDocument_hasPath_existsb;
    by rewrite (existsb_same_elements _ _ _ Hsame).
Qed.

(** X8. The operations on exact strings and [IgnoreValueChanges] commute
    with one another: a filter and an exclude may be swapped. *)
Theorem operations_commute (r : Report) (A B : list string) :
  Exclude (Filter r A) B = Filter (Exclude r B) A
  /\ FilterDocument (Filter r A) B = Filter (FilterDocument r B) A
  /\ ExcludeDocument (Filter r A) B = Filter (ExcludeDocument r B) A
  /\ FilterDocument (Exclude r A) B = Exclude (FilterDocument r B) A
  /\ ExcludeDocument (Exclude r A) B = Exclude (ExcludeDocument r B) A
  /\ ExcludeDocument (FilterDocument r A) B = FilterDocument (ExcludeDocument r B) A
  /\ IgnoreValueChanges (Filter r A) = Filter (IgnoreValueChanges r) A
  /\ IgnoreValueChanges (Exclude r A) = Exclude (IgnoreValueChanges r) A
  /\ IgnoreValueChanges (FilterDocument r A) = FilterDocument (IgnoreValueChanges r) A
  /\ IgnoreValueChanges (ExcludeDocument r A) = ExcludeDocument (IgnoreValueChanges r) A.
Proof.
  rewrite !Filter_as_keep, !Exclude_as_keep, !FilterDocument_as_keep,
    !ExcludeDocument_as_keep, !IgnoreValueChanges_keep.
  repeat split; apply keep_comm.
Qed.

Lemma hasValChange_true (details : list Detail) :
  hasValChange details = true
  <-> exists detail, detail ∈ details /\ Kind detail = MODIFICATION.
Proof.
  induction details as [|d details IH]; simpl.
  - split; [done|]. intros (detail & Hin & _). by apply elem_of_nil in Hin.
  - case_bool_decide as Hk.
    + split; [|done]. intros _. exists d. split; [apply list_elem_of_here | done].
    + rewrite IH. split.
      * intros (detail & Hin & Hm). exists detail.
        split; [by apply list_elem_of_further | done].
      * intros (detail & Hin & Hm). apply elem_of_cons in Hin as [-> | Hin]; [done|].
        by exists detail.
Qed.

Lemma IgnoreValueChanges_no_value_change (r : Report) (diff : Diff) :
  diff ∈ Diffs (IgnoreValueChanges r) -> ~ value_change diff.
Proof.
  rewrite IgnoreValueChanges_Diffs, list_elem_of_In, List.filter_In, negb_true_iff.
  intros [_ Hno] Hchange. apply hasValChange_true in Hchange. congruence.
Qed.

(** X9. [IgnoreValueChanges] keeps exactly the diffs none of whose
    details is a MODIFICATION. *)
Theorem IgnoreValueChanges_keeps_the_diffs_without_modification
    (r : Report) (diff : Diff) :
  diff ∈ Diffs (IgnoreValueChanges r) <-> diff ∈ Diffs r /\ ~ value_change diff.
Proof.
  rewrite IgnoreValueChanges_Diffs, !list_elem_of_In, List.filter_In, negb_true_iff.
  unfold value_change. by rewrite <- hasValChange_true, not_true_iff_false.
Qed.

Lemma Forall_or_Exists {A : Type} (P Q : A -> Prop) (xs : list A) :
  (forall x, P x \/ Q x) -> Forall P xs \/ Exists Q xs.
Proof.
  intros Hdec. induction xs as [|x xs [IH | IH]].
  - left. constructor.
  - destruct (Hdec x) as [Hp | Hq]; [left; by constructor | right; by constructor].
  - right. by apply Exists_cons_tl.
Qed.

Lemma path_or_not (diff : Diff) :
  (lone_addition diff = true -> is_Some (Path diff))
  \/ (lone_addition diff = true /\ Path diff = None).
Proof.
  destruct (lone_addition diff); [|left; done].
  destruct (Path diff) as [p|]; [left; by eexists | right; done].
Qed.

Lemma IgnoreNewDocuments_Ok_iff (r : Report) :
  (exists r', IgnoreNewDocuments r = Ok r')
  <-> Forall (fun diff => lone_addition diff = true -> is_Some (Path diff)) (Diffs r).
Proof.
  split.
  - intros [r' Hr'].
    destruct (Forall_or_Exists _ _ (Diffs r) path_or_not) as [Hall | Hex]; [done|].
    destruct (IgnoreNewDocuments_Panic r Hex) as [msg Hmsg]. congruence.
  - intros Hall. eexists. by apply IgnoreNewDocuments_Ok.
Qed.

(** X10. [IgnoreNewDocuments] returns a report exactly when every diff
    whose detail list is a single ADDITION carries a path; otherwise it
    panics. *)
Theorem IgnoreNewDocuments_returns_iff (r : Report) :
  ((exists r', IgnoreNewDocuments r = Ok r')
   <-> Forall (fun diff => lone_addition diff = true -> is_Some (Path diff)) (Diffs r))
  /\ ((exists msg, IgnoreNewDocuments r = Panic msg)
      <-> Exists (fun diff => lone_addition diff = true /\ Path diff = None) (Diffs r)).
Proof.
  split; [apply IgnoreNewDocuments_Ok_iff|]. split.
  - intros [msg Hmsg].
    destruct (Forall_or_Exists _ _ (Diffs r) path_or_not) as [Hall | Hex]; [|done].
    rewrite (IgnoreNewDocuments_Ok r Hall) in Hmsg. discriminate.
  - apply IgnoreNewDocuments_Panic.
Qed.

Lemma IgnoreNewDocuments_keep (r r' : Report) :
  IgnoreNewDocuments r = Ok r' -> r' = keep r (fun diff => negb (is_new_document diff)).
Proof.
  intros Hr'. assert (Hall := proj1 (IgnoreNewDocuments_Ok_iff r) (ex_intro _ r' Hr')).
  rewrite (IgnoreNewDocuments_Ok r Hall) in Hr'. by injection Hr' as <-.
Qed.

Lemma IgnoreNewDocuments_of_keep (r r' : Report) (f : Diff -> bool) :
  IgnoreNewDocuments r = Ok r' -> IgnoreNewDocuments (keep r f) = Ok (keep r' f).
Proof.
  intros Hr'. assert (Hall := proj1 (IgnoreNewDocuments_Ok_iff r) (ex_intro _ r' Hr')).
  rewrite (IgnoreNewDocuments_keep r r' Hr').
  rewrite IgnoreNewDocuments_Ok.
  - f_equal. change (keep (keep r f) (fun diff => negb (is_new_document diff))
                     = keep (keep r (fun diff => negb (is_new_document diff))) f).
    apply keep_comm.
  - simpl. rewrite Forall_forall in Hall. apply Forall_forall. intros diff Hin.
    apply Hall. apply list_elem_of_In, List.filter_In in Hin as [Hin _].
    by apply list_elem_of_In.
Qed.

(** X11. [IgnoreNewDocuments] is idempotent: applied to a report it
    returned, it returns that report. *)
Theorem IgnoreNewDocuments_is_idempotent (r r' : Report) :
  IgnoreNewDocuments r = Ok r' -> IgnoreNewDocuments r' = Ok r'.
Proof.
  intros Hr'. pose proof (IgnoreNewDocuments_keep r r' Hr') as Hkeep.
  pose proof (IgnoreNewDocuments_of_keep r r' (fun diff => negb (is_new_document diff)) Hr')
    as Hagain.
  rewrite <- Hkeep in Hagain. rewrite Hagain. f_equal.
  rewrite Hkeep, keep_keep. apply keep_ext. intros diff _. apply andb_diag.
Qed.

(** X12. Where [IgnoreNewDocuments] returns, it commutes with the
    operations on exact strings and with [IgnoreValueChanges]. *)
Theorem IgnoreNewDocuments_commutes (r r' : Report) (args : list string) :
  IgnoreNewDocuments r = Ok r' ->
  IgnoreNewDocuments (Filter r args) = Ok (Filter r' args)
  /\ IgnoreNewDocuments (Exclude r args) = Ok (Exclude r' args)
  /\ IgnoreNewDocuments (FilterDocument r args) = Ok (FilterDocument r' args)
  /\ IgnoreNewDocuments (ExcludeDocument r args) = Ok (ExcludeDocument r' args)
  /\ IgnoreNewDocuments (IgnoreValueChanges r) = Ok (IgnoreValueChanges r').
Proof.
  intros Hr'.
  rewrite !Filter_as_keep, !Exclude_as_keep, !FilterDocument_as_keep,
    !ExcludeDocument_as_keep, !IgnoreValueChanges_keep.
  repeat split; by apply IgnoreNewDocuments_of_keep.
Qed.

(** X13. After [Filter] or [FilterDocument] with a non-empty argument
    list, [IgnoreNewDocuments] always returns: the diffs without a path are
    gone. *)
Theorem IgnoreNewDocuments_returns_after_a_filter (r : Report) (args : list string) :
  args <> [] ->
  (exists r', IgnoreNewDocuments (Filter r args) = Ok r')
  /\ (exists r', IgnoreNewDocuments (FilterDocument r args) = Ok r').
Proof.
  intros Hne. destruct args as [|a args]; [done|].
  split; apply IgnoreNewDocuments_Ok_iff, Forall_forall; intros diff Hin _;
    apply elem_of_filter_Diffs in Hin as [_ Hhit];
    destruct (Path diff) as [p|] eqn:Hp; try (by eexists).
  - by rewrite Filter_hasPath_None in Hhit.
  - by rewrite FilterDocument_hasPath_None in Hhit.
Qed.

(** X14. A non-empty list of path strings none of which parses makes
    [Filter] drop every diff and [Exclude] return the report unchanged. *)
Theorem unparseable_paths_alone (r : Report) (paths : list string) :
  paths <> [] ->
  Forall (fun p => (ParsePathStringUnsafe p).2 <> None) paths ->
  Diffs (Filter r paths) = [] /\ Exclude r paths = r.
Proof.
  intros Hne Hbad.
  assert (Hnone : forall fp, Filter_hasPath paths fp = false).
  { intros fp. rewrite Filter_hasPath_existsb. apply not_true_iff_false.
    rewrite existsb_exists. intros (p & Hin & Hhit).
    rewrite Forall_forall in Hbad.
    rewrite path_hit_unparseable in Hhit; [done|]. apply Hbad. by apply list_elem_of_In. }
  destruct paths as [|p0 paths]; [done|]. unfold Filter, Exclude. split.
  - rewrite filter_Diffs. apply List_filter_none. intros diff _. apply Hnone.
  - apply filter_all. intros diff _. by rewrite Exclude_hasPath_negb, Hnone.
Qed.

End FilterAlgebra.

(** ** Grouping by document *)

Section Grouping.

Context `{L : Lib}.

Lemma in_document_hit (file : string) (diff : Diff) :
  in_document file diff = FilterDocument_hasPath [file] (Path diff).
Proof.
  unfold in_document; simpl. unfold document_hit.
  destruct (Path diff) as [p|]; simpl; repeat case_bool_decide; congruence.
Qed.

Lemma in_document_Diffs (report : Report) (file : string) :
  List.filter (in_document file) (Diffs report) = Diffs (FilterDocument report [file]).
Proof.
  unfold FilterDocument. rewrite filter_Diffs.
  apply List.filter_ext. intros diff. apply in_document_hit.
Qed.

(** X15. The group [consolidateDiff] files under a name holds the
    consolidated diffs that [FilterDocument] keeps for that name, in their
    order, and a name has no group exactly when [FilterDocument] keeps
    nothing for it. *)
Theorem groups_are_the_documents (report : Report) (fileDiffs : gmap string (list Diff))
    (file : string) :
  consolidateDiff report = Ok fileDiffs ->
  default [] (fileDiffs !! file) = map consolidated (Diffs (FilterDocument report [file]))
  /\ (fileDiffs !! file = None <-> Diffs (FilterDocument report [file]) = []).
Proof.
  intros Hm. rewrite (consolidateDiff_lookup _ _ file Hm), in_document_Diffs.
  destruct (Diffs (FilterDocument report [file])); simpl; split; done.
Qed.

Lemma consolidated_consolidated (diff : Diff) :
  consolidated (consolidated diff) = consolidated diff.
Proof. done. Qed.

Lemma consolidated_Path (diff : Diff) : Path (consolidated diff) = Path diff.
Proof. done. Qed.

Lemma in_document_consolidated (file : string) (diff : Diff) :
  in_document file (consolidated diff) = in_document file diff.
Proof. done. Qed.

Lemma consolidateDiff_paths (report : Report) (fileDiffs : gmap string (list Diff)) :
  consolidateDiff report = Ok fileDiffs ->
  Forall (fun diff => is_Some (Path diff)) (Diffs report).
Proof.
  intros Hm.
  destruct (Forall_or_Exists (fun diff => is_Some (Path diff)) (fun diff => Path diff = None)
              (Diffs report)) as [Hall | Hex]; [|done|].
  - intros diff. destruct (Path diff); [left; by eexists | by right].
  - destruct (consolidateDiff_Panic report Hex) as [msg Hmsg]. congruence.
Qed.

(** Consolidating a group again: its diffs have one detail each and are
    all in the document of the group. *)
Lemma List_filter_map {A B : Type} (f : A -> B) (g : B -> bool) (xs : list A) :
  List.filter g (map f xs) = map f (List.filter (fun x => g (f x)) xs).
Proof. induction xs as [|x xs IH]; simpl; [done|]. destruct (g (f x)); simpl; by rewrite IH. Qed.

(** X16. Consolidation is idempotent: consolidating a group that
    [consolidateDiff] returned gives that group again, alone, under its
    name. *)
Theorem consolidateDiff_is_idempotent (report : Report)
    (fileDiffs : gmap string (list Diff)) (file : string) (group : list Diff) :
  consolidateDiff report = Ok fileDiffs ->
  fileDiffs !! file = Some group ->
  consolidateDiff {| Report_From := Report_From report;
                     Report_To := Report_To report;
                     Diffs := group |}
  = Ok {[ file := group ]}.
Proof.
  intros Hm Hg. rewrite (consolidateDiff_lookup _ _ file Hm) in Hg.
  assert (Hgroup : group = map consolidated (List.filter (in_document file) (Diffs report))
                   /\ List.filter (in_document file) (Diffs report) <> []).
  { destruct (List.filter _ _) as [|d ds]; [discriminate|]. injection Hg as <-.
    split; [reflexivity | done]. }
  destruct Hgroup as [Hgroup Hne].
  set (again := {| Report_From := Report_From report; Report_To := Report_To report;
                   Diffs := group |}).
  assert (Hpaths : Forall (fun diff => is_Some (Path diff)) (Diffs again)).
  { simpl. rewrite Hgroup. apply Forall_forall. intros diff Hin.
    apply list_elem_of_fmap in Hin as (diff' & -> & Hin).
    pose proof (consolidateDiff_paths _ _ Hm) as Hall. rewrite Forall_forall in Hall.
    rewrite consolidated_Path. apply Hall.
    apply list_elem_of_In, List.filter_In in Hin as [Hin _]. by apply list_elem_of_In. }
  destruct (consolidateDiff_Ok again Hpaths) as [m' Hm']. rewrite Hm'. f_equal.
  apply map_eq. intros file'. rewrite (consolidateDiff_lookup _ _ file' Hm'). simpl.
  rewrite Hgroup, List_filter_map.
  rewrite (List.filter_ext _ (fun diff => in_document file' diff))
    by (intros; apply in_document_consolidated).
  rewrite List_filter_filter.
  destruct (decide (file' = file)) as [-> | Hother].
  - rewrite lookup_singleton_eq.
    rewrite (List.filter_ext _ (in_document file)) by (intros; apply andb_diag).
    destruct (List.filter (in_document file) (Diffs report)) as [|d ds]; [done|].
    simpl. by rewrite map_map.
  - rewrite lookup_singleton_ne by done.
    rewrite List_filter_none; [done|]. intros diff _.
    unfold in_document. apply andb_false_iff.
    destruct (bool_decide (RootDescription <$> Path diff = Some file)) eqn:Hb; [|by left].
    right. apply bool_decide_eq_true in Hb. apply bool_decide_eq_false_2. congruence.
Qed.

Lemma sum_list_with_cons {A : Type} (f : A -> nat) (x : A) (xs : list A) :
  sum_list_with f (x :: xs) = f x + sum_list_with f xs.
Proof. done. Qed.

Lemma total_insert (m : gmap string (list Diff)) (key : string) (group : list Diff) :
  total (<[key := group]> m) + length (default [] (m !! key)) = total m + length group.
Proof.
  unfold total. destruct (m !! key) as [old|] eqn:Hkey.
  - rewrite <- (insert_delete_eq m key group).
    rewrite (map_to_list_insert (delete key m) key group) by apply lookup_delete_eq.
    rewrite <- (map_to_list_delete m key old Hkey), !sum_list_with_cons.
    cbn [default snd id]. lia.
  - rewrite (map_to_list_insert m key group Hkey), sum_list_with_cons.
    cbn [default snd id length]. lia.
Qed.

Lemma consolidate_loop_total (diffs : list Diff) (m0 m : gmap string (list Diff)) :
  range_loop consolidate_step diffs m0 = Ok m -> total m = total m0 + length diffs.
Proof.
  revert m0; induction diffs as [|diff diffs IH]; intros m0; simpl.
  - intros [= <-]. lia.
  - unfold consolidate_step at 1. destruct (Path diff) as [p|]; simpl; [|discriminate].
    intros Hloop. rewrite (IH _ Hloop).
    pose proof (total_insert m0 (RootDescription p)
                  (default [] (m0 !! RootDescription p)
                   ++ [{| Path := Some p; Details := [consolidate diff] |}])) as Hins.
    rewrite length_app in Hins. simpl in Hins. lia.
Qed.

Lemma consolidateDiff_finds (report : Report) (fileDiffs : gmap string (list Diff))
    (diff : Diff) (p : ytbx_Path) :
  consolidateDiff report = Ok fileDiffs ->
  diff ∈ Diffs report -> Path diff = Some p ->
  consolidated diff ∈ default [] (fileDiffs !! RootDescription p).
Proof.
  intros Hm Hin Hp.
  assert (Hdoc : diff ∈ List.filter (in_document (RootDescription p)) (Diffs report)).
  { apply list_elem_of_In, List.filter_In. split; [by apply list_elem_of_In|].
    rewrite (in_document_key diff p _ Hp). by apply bool_decide_eq_true_2. }
  rewrite (consolidateDiff_lookup _ _ (RootDescription p) Hm).
  destruct (List.filter _ _) as [|d ds] eqn:Hf; [by apply elem_of_nil in Hdoc|].
  change (consolidated diff ∈ consolidated <$> (d :: ds)).
  by apply list_elem_of_fmap_2.
Qed.

(** X17. [consolidateDiff] loses no diff: the groups hold as many diffs as
    the report, no group is empty, and every diff with a path is found,
    consolidated, in the group of its document. *)
Theorem consolidateDiff_loses_no_diff (report : Report)
    (fileDiffs : gmap string (list Diff)) :
  consolidateDiff report = Ok fileDiffs ->
  sum_list_with (fun entry => length entry.2) (map_to_list fileDiffs)
  = length (Diffs report)
  /\ (forall file group, fileDiffs !! file = Some group -> group <> [])
  /\ (forall diff p, diff ∈ Diffs report -> Path diff = Some p ->
        consolidated diff ∈ default [] (fileDiffs !! RootDescription p)).
Proof.
  intros Hm. split; [|split].
  - pose proof (consolidate_loop_total _ _ _ Hm) as Htotal.
    unfold total in Htotal. rewrite map_to_list_empty in Htotal. simpl in Htotal. done.
  - intros file group Hg. rewrite (consolidateDiff_lookup _ _ file Hm) in Hg.
    destruct (List.filter _ _); [discriminate|]. by injection Hg as <-.
  - intros diff p Hin Hp. by apply (consolidateDiff_finds report).
Qed.

End Grouping.

(** ** Rendering the grouping *)

Section Rendering.

Context `{Y : YAMLLib}.

Lemma yaml_loop_Ok (diffs : list Diff) (acc : list YAMLReportDiff) :
  Forall (fun diff => is_Some (Path diff)) diffs ->
  is_Ok (range_loop
           (fun d diff =>
              match Path diff with
              | None => Panic nil_dereference
              | Some p => Ok (d ++ [{| yaml_Details := Details diff;
                                       yaml_Path := Path_String p |}])
              end)
           diffs acc).
Proof.
  intros Hpaths; revert acc; induction Hpaths as [|diff diffs [p Hp] _ IH]; intros acc; simpl.
  - by eexists.
  - rewrite Hp; simpl. apply IH.
Qed.

Lemma yaml_diffs_Ok (diffs : list Diff) :
  Forall (fun diff => is_Some (Path diff)) diffs -> is_Ok (yaml_diffs diffs).
Proof. apply yaml_loop_Ok. Qed.

Lemma write_groups_Ok (groups : list (string * list Diff)) (writer : Writer) :
  Forall (fun group => Forall (fun diff => is_Some (Path diff)) group.2) groups ->
  is_Ok (write_groups groups writer).
Proof.
  intros Hpaths; revert writer.
  induction Hpaths as [|[file diffs] groups Hdiffs _ IH]; intros writer; simpl.
  - destruct (WriteString writer newline). by eexists.
  - destruct (K8sMetaFromName file) as [meta [e|]]; [by eexists|].
    destruct (yaml_diffs_Ok diffs Hdiffs) as [d ->]; simpl.
    destruct (ToYAML _) as [yamlData [e|]]; [by eexists|].
    destruct (WriteString writer yamlData) as [writer' [e|]]; [by eexists|].
    apply IH.
Qed.

Lemma groups_have_paths (report : Report) (fileDiffs : gmap string (list Diff))
    (groups : list (string * list Diff)) :
  consolidateDiff report = Ok fileDiffs ->
  groups ≡ₚ map_to_list fileDiffs ->
  Forall (fun group => Forall (fun diff => is_Some (Path diff)) group.2) groups.
Proof.
  intros Hm Hperm. apply Forall_forall. intros [file diffs] Hin. simpl.
  rewrite Hperm in Hin. apply elem_of_map_to_list in Hin.
  rewrite (consolidateDiff_lookup _ _ file Hm) in Hin.
  pose proof (consolidateDiff_paths _ _ Hm) as Hall. rewrite Forall_forall in Hall.
  destruct (List.filter (in_document file) (Diffs report)) as [|d ds] eqn:Hf; [done|].
  injection Hin as <-. apply Forall_forall. intros diff Hdiff.
  change (diff ∈ consolidated <$> (d :: ds)) in Hdiff.
  apply list_elem_of_fmap in Hdiff as (diff' & -> & Hdiff').
  rewrite consolidated_Path. apply Hall.
  rewrite <- Hf in Hdiff'. apply list_elem_of_In, List.filter_In in Hdiff' as [Hdiff' _].
  by apply list_elem_of_In.
Qed.

(** X18. [WriteReport] panics exactly when a diff of the report carries
    no path, whatever the order in which the map is visited. *)
Theorem WriteReport_panics_iff (report : Report) (writer : Writer)
    (outcome : result (Writer * option string)) :
  WriteReport report writer outcome ->
  (exists msg, outcome = Panic msg)
  <-> Exists (fun diff => Path diff = None) (Diffs report).
Proof.
  unfold WriteReport. intros Hout. split.
  - intros [msg ->].
    destruct (consolidateDiff report) as [m|msg'] eqn:Hm.
    + destruct Hout as (groups & Hperm & Hout). exfalso.
      destruct (write_groups_Ok groups writer (groups_have_paths _ _ _ Hm Hperm))
        as [[w e] Hw].
      unfold WriteReport_in in Hout. rewrite Hw in Hout. done.
    + destruct (Forall_or_Exists (fun diff => is_Some (Path diff))
                  (fun diff => Path diff = None) (Diffs report)) as [Hall | Hex]; [|exfalso|done].
      * intros diff. destruct (Path diff); [left; by eexists | by right].
      * destruct (consolidateDiff_Ok report Hall) as [m Hm']. congruence.
  - intros Hex. destruct (consolidateDiff_Panic report Hex) as [msg Hmsg].
    rewrite Hmsg in Hout. by exists msg.
Qed.

Lemma one_document_grouping (report : Report) (fileDiffs : gmap string (list Diff))
    (file : string) :
  (forall diff, diff ∈ Diffs report -> in_document file diff = true) ->
  consolidateDiff report = Ok fileDiffs ->
  fileDiffs = ∅ \/ exists group, fileDiffs = {[ file := group ]}.
Proof.
  intros Hone Hm.
  assert (Hother : forall file', file' <> file -> fileDiffs !! file' = None).
  { intros file' Hne. rewrite (consolidateDiff_lookup _ _ file' Hm).
    rewrite List_filter_none; [done|]. intros diff Hin. specialize (Hone diff Hin).
    unfold in_document in *. apply bool_decide_eq_true in Hone.
    apply bool_decide_eq_false_2. congruence. }
  destruct (fileDiffs !! file) as [group|] eqn:Hfile.
  - right. exists group. apply map_eq. intros file'.
    destruct (decide (file' = file)) as [-> | Hne].
    + by rewrite lookup_singleton_eq.
    + rewrite lookup_singleton_ne by done. by apply Hother.
  - left. apply map_eq. intros file'. rewrite lookup_empty.
    destruct (decide (file' = file)) as [-> | Hne]; [done | by apply Hother].
Qed.

(** X19. When all the diffs are in one document, [WriteReport] has one
    outcome only: the order of the map cannot show. *)
Theorem WriteReport_of_one_document_is_determined (report : Report) (file : string)
    (writer : Writer) (outcome outcome' : result (Writer * option string)) :
  (forall diff, diff ∈ Diffs report -> in_document file diff = true) ->
  WriteReport report writer outcome ->
  WriteReport report writer outcome' ->
  outcome = outcome'.
Proof.
  unfold WriteReport. intros Hone Hout Hout'.
  destruct (consolidateDiff report) as [m|msg] eqn:Hm; [|congruence].
  destruct Hout as (groups & Hperm & ->). destruct Hout' as (groups' & Hperm' & ->).
  destruct (one_document_grouping report m file Hone Hm) as [-> | [group ->]].
  - rewrite map_to_list_empty in Hperm, Hperm'.
    apply Permutation_nil_r in Hperm, Hperm'. by subst.
  - rewrite map_to_list_singleton in Hperm, Hperm'.
    apply Permutation_singleton_r in Hperm, Hperm'. by subst.
Qed.

Lemma write_groups_fails (groups : list (string * list Diff)) (file : string)
    (diffs : list Diff) (writer writer' : Writer) :
  (file, diffs) ∈ groups ->
  (K8sMetaFromName file).2 <> None ->
  write_groups groups writer <> Ok (writer', None).
Proof.
  intros Hin Hfail. revert writer.
  induction groups as [|[file0 diffs0] groups IH]; intros writer; simpl.
  - by apply elem_of_nil in Hin.
  - destruct (K8sMetaFromName file0) as [meta [e|]] eqn:Hmeta; [done|].
    apply elem_of_cons in Hin as [Heq | Hin].
    { injection Heq as -> ->. rewrite Hmeta in Hfail. done. }
    destruct (yaml_diffs diffs0) as [d|msg]; simpl; [|done].
    destruct (ToYAML _) as [yamlData [e|]]; [done|].
    destruct (WriteString writer yamlData) as [writer0 [e|]]; [done|].
    by apply IH.
Qed.

(** X20. When [K8sMetaFromName] fails for the document of one diff,
    [WriteReport] does not succeed, whatever the order in which the map is
    visited. *)
Theorem WriteReport_needs_the_metadata_of_every_document
    (report : Report) (writer writer' : Writer)
    (outcome : result (Writer * option string)) (diff : Diff) (p : ytbx_Path) :
  diff ∈ Diffs report ->
  Path diff = Some p ->
  (K8sMetaFromName (RootDescription p)).2 <> None ->
  WriteReport report writer outcome ->
  outcome <> Ok (writer', None).
Proof.
  unfold WriteReport. intros Hin Hp Hfail Hout.
  destruct (consolidateDiff report) as [m|msg] eqn:Hm; [|by subst].
  destruct Hout as (groups & Hperm & ->).
  pose proof (consolidateDiff_finds report m diff p Hm Hin Hp) as Hg.
  destruct (m !! RootDescription p) as [group|] eqn:Hgroup;
    [|by apply elem_of_nil in Hg].
  assert (Hentry : (RootDescription p, group) ∈ groups).
  { rewrite Hperm. by apply elem_of_map_to_list. }
  unfold WriteReport_in.
  destruct (write_groups groups writer) as [[w [e|]]|msg] eqn:Hw; simpl; [done| |done].
  exfalso. by eapply write_groups_fails.
Qed.

End Rendering.

(** ** The commands *)

Lemma bind_Ok_inv {A B : Type} (m : result A) (k : A -> result B) (b : B) :
  bind m k = Ok b -> exists a, m = Ok a /\ k a = Ok b.
Proof. destruct m as [a|msg]; simpl; [eauto | discriminate]. Qed.

Section Pipeline.

Context `{L : Lib}.

Lemma frame_trans (r1 r2 r3 : Report) : frame r1 r2 -> frame r2 r3 -> frame r1 r3.
Proof.
  intros (Hf & Ht & Hd) (Hf' & Ht' & Hd'). repeat split; [congruence..|].
  by etransitivity.
Qed.

Lemma frame_Forall (P : Diff -> Prop) (r r' : Report) :
  frame r r' -> Forall P (Diffs r) -> Forall P (Diffs r').
Proof.
  intros (_ & _ & Hsub). rewrite !Forall_forall. intros Hall diff Hin.
  apply Hall. by eapply elem_of_sublist.
Qed.

Lemma regexp_operations_frame (r r' : Report) (pattern : list string) :
  (FilterRegexp r pattern = Ok r' -> frame r r')
  /\ (ExcludeRegexp r pattern = Ok r' -> frame r r')
  /\ (FilterDocumentRegexp r pattern = Ok r' -> frame r r')
  /\ (ExcludeDocumentRegexp r pattern = Ok r' -> frame r r').
Proof.
  unfold FilterRegexp, ExcludeRegexp, FilterDocumentRegexp, ExcludeDocumentRegexp.
  destruct pattern as [|p pattern].
  - split; [|split; [|split]]; intros [= <-]; apply frame_refl.
  - destruct (compile_all (p :: pattern)) as [regexps|msg]; simpl;
      (split; [|split; [|split]]); intros [= <-]; apply filter_frame.
Qed.

Lemma IgnoreNewDocuments_frame (r r' : Report) :
  IgnoreNewDocuments r = Ok r' -> frame r r'.
Proof.
  intros Hr'. rewrite (IgnoreNewDocuments_keep r r' Hr').
  repeat split. apply List_filter_sublist.
Qed.

Lemma when_set_frame (args : option (list string)) (op : Report -> list string -> Report)
    (r : Report) :
  (forall r args, frame r (op r args)) -> frame r (when_set args op r).
Proof. intros Hop. destruct args; simpl; [apply Hop | apply frame_refl]. Qed.

Lemma when_set_regexp_frame (args : option (list string))
    (op : Report -> list string -> result Report) (r r' : Report) :
  (forall r r' args, op r args = Ok r' -> frame r r') ->
  when_set_regexp args op r = Ok r' -> frame r r'.
Proof.
  intros Hop. destruct args; simpl; [apply Hop|]. intros [= <-]. apply frame_refl.
Qed.

Lemma exact_operations_frame (r : Report) (args : list string) :
  frame r (Filter r args) /\ frame r (Exclude r args)
  /\ frame r (FilterDocument r args) /\ frame r (ExcludeDocument r args).
Proof.
  unfold Filter, Exclude, FilterDocument, ExcludeDocument.
  destruct args; (split; [|split; [|split]]);
    first [ apply frame_refl | apply filter_frame ].
Qed.

Lemma filter_stage_frame (reportOptions : reportFilters) (r r' : Report) :
  RunE_filters reportOptions r = Ok r' -> frame r r'.
Proof.
  unfold RunE_filters. intros H.
  apply bind_Ok_inv in H as (r2 & H2 & H).
  apply bind_Ok_inv in H as (r4 & H4 & H).
  apply bind_Ok_inv in H as (r6 & H6 & H).
  apply bind_Ok_inv in H as (r8 & H8 & H).
  apply when_set_regexp_frame in H2;
    [|intros; by eapply (proj1 (regexp_operations_frame _ _ _))].
  apply when_set_regexp_frame in H4;
    [|intros; by eapply (proj1 (proj2 (regexp_operations_frame _ _ _)))].
  apply when_set_regexp_frame in H6;
    [|intros; by eapply (proj1 (proj2 (proj2 (regexp_operations_frame _ _ _))))].
  apply when_set_regexp_frame in H8;
    [|intros; by eapply (proj2 (proj2 (proj2 (regexp_operations_frame _ _ _))))].
  assert (H9 : frame r8 (if opt_IgnoreValueChanges reportOptions
                         then IgnoreValueChanges r8 else r8)).
  { destruct (opt_IgnoreValueChanges reportOptions);
      [apply IgnoreValueChanges_frame | apply frame_refl]. }
  assert (H10 : frame (if opt_IgnoreValueChanges reportOptions
                       then IgnoreValueChanges r8 else r8) r').
  { destruct (opt_IgnoreNewDocuments reportOptions).
    - by apply IgnoreNewDocuments_frame.
    - injection H as <-. apply frame_refl. }
  eapply frame_trans; [|exact H10]. eapply frame_trans; [|exact H9].
  eapply frame_trans; [|exact H8].
  eapply frame_trans; [|apply when_set_frame; intros; apply exact_operations_frame].
  eapply frame_trans; [|exact H6].
  eapply frame_trans; [|apply when_set_frame; intros; apply exact_operations_frame].
  eapply frame_trans; [|exact H4].
  eapply frame_trans; [|apply when_set_frame; intros; apply exact_operations_frame].
  eapply frame_trans; [|exact H2].
  apply when_set_frame; intros; apply exact_operations_frame.
Qed.

(** X21. Whatever the options, the report that the filter stage of [RunE]
    hands to [writeReport] has the [From] and [To] of the compared report
    and a subsequence of its diffs, so it has no more diffs. *)
Theorem RunE_filters_frame (reportOptions : reportFilters) (r r' : Report) :
  RunE_filters reportOptions r = Ok r' ->
  frame r r' /\ length (Diffs r') <= length (Diffs r).
Proof.
  intros H. pose proof (filter_stage_frame _ _ _ H) as Hframe.
  split; [done|]. destruct Hframe as (_ & _ & Hsub). by apply sublist_length.
Qed.

Lemma regexp_operations_compiled (r r' : Report) (pattern : list string) :
  FilterRegexp r pattern = Ok r' \/ ExcludeRegexp r pattern = Ok r'
  \/ FilterDocumentRegexp r pattern = Ok r' \/ ExcludeDocumentRegexp r pattern = Ok r' ->
  Forall (fun p => is_Some (regexp_Compile p)) pattern.
Proof.
  unfold FilterRegexp, ExcludeRegexp, FilterDocumentRegexp, ExcludeDocumentRegexp.
  destruct pattern as [|p pattern]; [constructor|].
  pose proof (compile_all_cases (p :: pattern)) as Hc.
  destruct (compile_all (p :: pattern)) as [regexps|msg]; simpl.
  - intros _. eapply Forall2_Forall_l; [exact Hc|].
    apply Forall_forall. intros re _ pat Hpat. by eexists.
  - intros [H | [H | [H | H]]]; discriminate.
Qed.

Lemma regexp_operations_Ok (r : Report) (pattern : list string) :
  Forall (fun p => is_Some (regexp_Compile p)) pattern ->
  (exists r', FilterRegexp r pattern = Ok r')
  /\ (exists r', ExcludeRegexp r pattern = Ok r')
  /\ (exists r', FilterDocumentRegexp r pattern = Ok r')
  /\ (exists r', ExcludeDocumentRegexp r pattern = Ok r').
Proof.
  intros Hc. destruct (compile_all_Ok pattern Hc) as [regexps Hre].
  unfold FilterRegexp, ExcludeRegexp, FilterDocumentRegexp, ExcludeDocumentRegexp.
  destruct pattern; [|rewrite Hre; simpl]; repeat split; by eexists.
Qed.

Lemma when_set_regexp_compiled (args : option (list string))
    (op : Report -> list string -> result Report) (r r' : Report) :
  (forall r r' args, op r args = Ok r' ->
                     Forall (fun p => is_Some (regexp_Compile p)) args) ->
  when_set_regexp args op r = Ok r' ->
  Forall (fun p => is_Some (regexp_Compile p)) (default [] args).
Proof. intros Hop. destruct args; simpl; [apply Hop | constructor]. Qed.

Lemma when_set_regexp_Ok (args : option (list string))
    (op : Report -> list string -> result Report) (r : Report) :
  (forall r, Forall (fun p => is_Some (regexp_Compile p)) (default [] args) ->
             exists r', op r (default [] args) = Ok r') ->
  Forall (fun p => is_Some (regexp_Compile p)) (default [] args) ->
  exists r', when_set_regexp args op r = Ok r'.
Proof. intros Hop Hc. destruct args; simpl in *; [by apply Hop | by eexists]. Qed.

(** X22. The filter stage of [RunE] returns only if all the patterns of
    its options compile; and it returns if they do and every diff with a
    lone addition carries a path. *)
Theorem RunE_filters_returns (reportOptions : reportFilters) (r : Report) :
  ((exists r', RunE_filters reportOptions r = Ok r') ->
   Forall (fun p => is_Some (regexp_Compile p)) (patterns reportOptions))
  /\ (Forall (fun p => is_Some (regexp_Compile p)) (patterns reportOptions) ->
      Forall (fun diff => lone_addition diff = true -> is_Some (Path diff)) (Diffs r) ->
      exists r', RunE_filters reportOptions r = Ok r').
Proof.
  unfold patterns. rewrite !Forall_app. split.
  - intros [r' H]. unfold RunE_filters in H.
    apply bind_Ok_inv in H as (r2 & H2 & H).
    apply bind_Ok_inv in H as (r4 & H4 & H).
    apply bind_Ok_inv in H as (r6 & H6 & H).
    apply bind_Ok_inv in H as (r8 & H8 & H).
    repeat split;
      [ eapply when_set_regexp_compiled; [|exact H2]
      | eapply when_set_regexp_compiled; [|exact H4]
      | eapply when_set_regexp_compiled; [|exact H6]
      | eapply when_set_regexp_compiled; [|exact H8] ];
      intros; eapply regexp_operations_compiled; eauto.
  - intros (Hc2 & Hc4 & Hc6 & Hc8) Hpaths. unfold RunE_filters.
    set (r1 := when_set (Filters reportOptions) Filter r).
    assert (F1 : frame r r1)
      by (apply when_set_frame; intros; apply exact_operations_frame).
    destruct (when_set_regexp_Ok (FilterRegexps reportOptions) FilterRegexp r1) as [r2 H2];
      [intros r0 Hc; by apply regexp_operations_Ok|done|].
    rewrite H2; simpl bind; cbv beta.
    assert (F2 : frame r1 r2)
      by (eapply when_set_regexp_frame; [|exact H2];
          intros; by eapply (proj1 (regexp_operations_frame _ _ _))).
    set (r3 := when_set (Excludes reportOptions) Exclude r2).
    assert (F3 : frame r2 r3)
      by (apply when_set_frame; intros; apply exact_operations_frame).
    destruct (when_set_regexp_Ok (ExcludeRegexps reportOptions) ExcludeRegexp r3) as [r4 H4];
      [intros r0 Hc; by apply regexp_operations_Ok|done|].
    rewrite H4; simpl bind; cbv beta.
    assert (F4 : frame r3 r4)
      by (eapply when_set_regexp_frame; [|exact H4];
          intros; by eapply (proj1 (proj2 (regexp_operations_frame _ _ _)))).
    set (r5 := when_set (FilterDocuments reportOptions) FilterDocument r4).
    assert (F5 : frame r4 r5)
      by (apply when_set_frame; intros; apply exact_operations_frame).
    destruct (when_set_regexp_Ok (FilterDocumentRegexps reportOptions)
                FilterDocumentRegexp r5) as [r6 H6];
      [intros r0 Hc; by apply regexp_operations_Ok|done|].
    rewrite H6; simpl bind; cbv beta.
    assert (F6 : frame r5 r6)
      by (eapply when_set_regexp_frame; [|exact H6];
          intros; by eapply (proj1 (proj2 (proj2 (regexp_operations_frame _ _ _))))).
    set (r7 := when_set (ExcludeDocuments reportOptions) ExcludeDocument r6).
    assert (F7 : frame r6 r7)
      by (apply when_set_frame; intros; apply exact_operations_frame).
    destruct (when_set_regexp_Ok (ExcludeDocumentRegexps reportOptions)
                ExcludeDocumentRegexp r7) as [r8 H8];
      [intros r0 Hc; by apply regexp_operations_Ok|done|].
    rewrite H8; simpl bind; cbv beta.
    assert (F8 : frame r7 r8)
      by (eapply when_set_regexp_frame; [|exact H8];
          intros; by eapply (proj2 (proj2 (proj2 (regexp_operations_frame _ _ _))))).
    set (r9 := if opt_IgnoreValueChanges reportOptions then IgnoreValueChanges r8 else r8).
    assert (F9 : frame r8 r9)
      by (unfold r9; destruct (opt_IgnoreValueChanges reportOptions);
          [apply IgnoreValueChanges_frame | apply frame_refl]).
    destruct (opt_IgnoreNewDocuments reportOptions); [|by eexists].
    apply IgnoreNewDocuments_Ok_iff.
    eapply frame_Forall; [|exact Hpaths].
    repeat (eapply frame_trans; [|eassumption]). done.
Qed.

(** X23. With [IgnoreValueChanges] set, no diff that the filter stage of
    [RunE] returns has a MODIFICATION detail. *)
Theorem RunE_filters_ignores_value_changes (reportOptions : reportFilters)
    (r r' : Report) (diff : Diff) :
  opt_IgnoreValueChanges reportOptions = true ->
  RunE_filters reportOptions r = Ok r' ->
  diff ∈ Diffs r' ->
  ~ value_change diff.
Proof.
  intros Hflag H Hin. unfold RunE_filters in H.
  apply bind_Ok_inv in H as (r2 & _ & H).
  apply bind_Ok_inv in H as (r4 & _ & H).
  apply bind_Ok_inv in H as (r6 & _ & H).
  apply bind_Ok_inv in H as (r8 & _ & H).
  rewrite Hflag in H.
  assert (Hin9 : diff ∈ Diffs (IgnoreValueChanges r8)).
  { destruct (opt_IgnoreNewDocuments reportOptions).
    - apply IgnoreNewDocuments_frame in H as (_ & _ & Hsub). by eapply elem_of_sublist.
    - by injection H as <-. }
  by apply IgnoreValueChanges_no_value_change in Hin9.
Qed.

End Pipeline.

Section Signals.

Context `{C : CmdLib}.

Lemma writeReport_exit_code_value (reportOptions : reportConfig) (report : Report)
    (value : Z) :
  writeReport reportOptions report = Ok (Some (errorWithExitCode value)) ->
  value = match Diffs report with [] => 0%Z | _ => 1%Z end.
Proof.
  unfold writeReport.
  destruct (select_writer reportOptions report) as [w|]; [|done].
  destruct (ReportWriter_WriteReport w) as [[e|]|msg]; simpl; [done| |done].
  destruct (ExitWithCode reportOptions); [|done].
  destruct (Diffs report); simpl; congruence.
Qed.

(** X25. [writeReport] returns an exit code exactly when [ExitWithCode]
    is set, the style is known and the report was written; the code is 0
    for a report without diffs and 1 otherwise. *)
Theorem writeReport_exit_code_iff (reportOptions : reportConfig) (report : Report)
    (value : Z) :
  writeReport reportOptions report = Ok (Some (errorWithExitCode value))
  <-> ExitWithCode reportOptions = true
      /\ (exists reportWriter,
            select_writer reportOptions report = Some reportWriter
            /\ ReportWriter_WriteReport reportWriter = Ok None)
      /\ value = match Diffs report with [] => 0%Z | _ => 1%Z end.
Proof.
  unfold writeReport. split.
  - destruct (select_writer reportOptions report) as [w|]; [|done].
    destruct (ReportWriter_WriteReport w) as [[e|]|msg] eqn:Hw; simpl; [done| |done].
    destruct (ExitWithCode reportOptions); [|done].
    intros H. split; [done|]. split; [by exists w|].
    destruct (Diffs report); simpl in H; congruence.
  - intros (Hexit & (w & -> & ->) & ->). simpl. rewrite Hexit.
    by destruct (Diffs report).
Qed.

Lemma select_writer_None (reportOptions : reportConfig) (report : Report) :
  select_writer reportOptions report = None <-> ToLower (Style reportOptions) ∉ styles.
Proof.
  unfold select_writer.
  change styles with (["human"; "bosh"] ++ ["github"; "linguist"] ++ ["gitlab"; "rogue"]
                      ++ ["gitea"; "forgejo"] ++ ["yaml"; "yml"]
                      ++ ["brief"; "short"; "summary"]).
  repeat case_bool_decide; (split; [try done|]); rewrite !elem_of_app; tauto.
Qed.

(** X26. [writeReport] returns the unknown-style error exactly when the
    lower-cased style is none of the thirteen names of its [switch]; the
    error carries the style as it was given. *)
Theorem writeReport_unknown_style_iff (reportOptions : reportConfig) (report : Report)
    (style usage : string) :
  writeReport reportOptions report = Ok (Some (unknown_output_style style usage))
  <-> (ToLower (Style reportOptions) ∉ styles)
      /\ style = Style reportOptions /\ usage = UsageString.
Proof.
  rewrite <- (select_writer_None reportOptions report). unfold writeReport. split.
  - destruct (select_writer reportOptions report) as [w|].
    + destruct (ReportWriter_WriteReport w) as [[e|]|msg]; simpl; [done| |done].
      destruct (ExitWithCode reportOptions); [|done]. by destruct (Diffs report).
    + intros [= <- <-]. done.
  - intros (-> & -> & ->). done.
Qed.

(** X24. [RunE] asks for the exit code 1 only when the compared report
    has diffs. *)
Theorem RunE_exits_with_1_only_on_diffs (reportOptions : reportConfig)
    (filters : reportFilters) (report : Report) :
  RunE_report reportOptions filters report = Ok (Some (errorWithExitCode 1)) ->
  Diffs report <> [].
Proof.
  unfold RunE_report. intros H. apply bind_Ok_inv in H as (r' & Hr' & H).
  apply writeReport_exit_code_value in H as Hvalue.
  apply filter_stage_frame in Hr' as (_ & _ & Hsub).
  intros Hnil. rewrite Hnil in Hsub. apply sublist_nil_r in Hsub.
  by rewrite Hsub in Hvalue.
Qed.

End Signals.

Section Writers.

Context `{O : OutLib}.

Lemma string_app_assoc (a b c : string) : (a +:+ b) +:+ c = a +:+ (b +:+ c).
Proof.
  induction a as [|ch a IH]; [reflexivity|].
  change (String ch ((a +:+ b) +:+ c) = String ch (a +:+ (b +:+ c))). by rewrite IH.
Qed.

Lemma string_app_empty (a : string) : a +:+ "" = a.
Proof.
  induction a as [|ch a IH]; [reflexivity|].
  change (String ch (a +:+ "") = String ch a). by rewrite IH.
Qed.

Lemma write_documents_all (w : OutputWriter) (documents : list Document) (written : string) :
  Forall (fun document => (write_document w document).2 = None) documents ->
  write_documents w documents written = (written +:+ rendered w documents, None).
Proof.
  intros Hall; revert written; induction Hall as [|d ds Hd _ IH]; intros written; simpl.
  - by rewrite string_app_empty.
  - destruct (write_document w d) as [bytes err] eqn:Hw; simpl in *. subst err.
    rewrite IH. by rewrite string_app_assoc.
Qed.

Lemma write_documents_stop (w : OutputWriter) (before after : list Document)
    (bad : Document) (e : write_error) (written : string) :
  Forall (fun document => (write_document w document).2 = None) before ->
  (write_document w bad).2 = Some e ->
  write_documents w (before ++ bad :: after) written
  = (written +:+ rendered w before +:+ (write_document w bad).1, Some e).
Proof.
  intros Hall Hbad; revert written; induction Hall as [|d ds Hd _ IH]; intros written; simpl.
  - destruct (write_document w bad) as [bytes err]; simpl in *. by subst err.
  - destruct (write_document w d) as [bytes err]; simpl in *. subst err.
    rewrite IH. by rewrite !string_app_assoc.
Qed.

Lemma WriteInplace_rendered (w : OutputWriter) (fs : FS) (filename : string)
    (documents : list Document) :
  LoadFile fs filename = (documents, None) ->
  Forall (fun document => (write_document (plain w) document).2 = None) documents ->
  WriteInplace w fs filename
  = (plain w,
     (os_WriteFile fs filename (rendered (plain w) documents)).1,
     option_map (failed_to_overwrite (humanReadableFilename filename))
       (os_WriteFile fs filename (rendered (plain w) documents)).2).
Proof.
  intros Hload Hall. unfold WriteInplace, write. fold (plain w). rewrite Hload.
  rewrite (write_documents_all _ _ _ Hall). simpl.
  by destruct (os_WriteFile _ _ _).
Qed.

(** X27. [WriteInplace] is all or nothing: when every document is
    rendered, the file is overwritten once, with the bytes of all documents
    in order; when one is not, the file system is left as it was and an
    error is returned. *)
Theorem WriteInplace_is_all_or_nothing (w : OutputWriter) (fs : FS) (filename : string)
    (documents : list Document) :
  LoadFile fs filename = (documents, None) ->
  (Forall (fun document => (write_document (plain w) document).2 = None) documents ->
   WriteInplace w fs filename
   = (plain w,
      (os_WriteFile fs filename (rendered (plain w) documents)).1,
      option_map (failed_to_overwrite (humanReadableFilename filename))
        (os_WriteFile fs filename (rendered (plain w) documents)).2))
  /\ (Exists (fun document => (write_document (plain w) document).2 <> None) documents ->
      exists e, WriteInplace w fs filename = (plain w, fs, Some e)).
Proof.
  intros Hload. split; [by apply WriteInplace_rendered|].
  unfold WriteInplace, write. fold (plain w). rewrite Hload.
  - intros Hex.
    assert (Hsplit : exists before bad after e,
               documents = before ++ bad :: after
               /\ Forall (fun d => (write_document (plain w) d).2 = None) before
               /\ (write_document (plain w) bad).2 = Some e).
    { clear Hload. induction documents as [|d ds IH]; [by apply Exists_nil in Hex|].
      destruct ((write_document (plain w) d).2) as [e|] eqn:Hd.
      - exists [], d, ds, e. split; [done|]. split; [constructor | done].
      - apply Exists_cons in Hex as [Hex | Hex]; [done|].
        destruct (IH Hex) as (before & bad & after & e & -> & Hall & Hbad).
        exists (d :: before), bad, after, e.
        split; [done|]. split; [by constructor | done]. }
    destruct Hsplit as (before & bad & after & e & -> & Hall & Hbad).
    rewrite (write_documents_stop _ _ _ _ e _ Hall Hbad). by eexists.
Qed.

(** X28. [WriteToStdout] stops at the first document that fails: what was
    written for the documents before it, and by the failing one, stays on
    the standard output, and the later documents are not touched. *)
Theorem WriteToStdout_stops_at_the_first_error (w : OutputWriter) (fs : FS)
    (stdout filename : string) (before after : list Document) (bad : Document)
    (e : write_error) :
  LoadFile fs filename = (before ++ bad :: after, None) ->
  Forall (fun document => (write_document w document).2 = None) before ->
  (write_document w bad).2 = Some e ->
  WriteToStdout w fs stdout filename
  = (stdout +:+ rendered w before +:+ (write_document w bad).1,
     Some (failed_to_write_output_to_stdout e)).
Proof.
  intros Hload Hall Hbad. unfold WriteToStdout, write. rewrite Hload.
  by rewrite (write_documents_stop _ _ _ _ e _ Hall Hbad).
Qed.

Lemma write_document_other_style (w : OutputWriter) (document : Document) :
  OutputStyle w <> "json" -> OutputStyle w <> "yaml" ->
  write_document w document = ("", None).
Proof.
  intros Hj Hy. unfold write_document.
  rewrite !(bool_decide_eq_false_2 _ Hj), !(bool_decide_eq_false_2 _ Hy).
  by rewrite !andb_false_r.
Qed.

Lemma rendered_other_style (w : OutputWriter) (documents : list Document) :
  OutputStyle w <> "json" -> OutputStyle w <> "yaml" -> rendered w documents = "".
Proof.
  intros Hj Hy. induction documents as [|d ds IH]; simpl; [done|].
  by rewrite (write_document_other_style w d Hj Hy), IH.
Qed.

(** X29. With a style other than [json] and [yaml], [write] writes
    nothing and reports no error: [WriteToStdout] leaves the standard
    output as it is and [WriteInplace] overwrites the file with nothing. *)
Theorem other_styles_write_nothing (w : OutputWriter) (fs : FS) (stdout filename : string)
    (documents : list Document) :
  OutputStyle w <> "json" ->
  OutputStyle w <> "yaml" ->
  LoadFile fs filename = (documents, None) ->
  WriteToStdout w fs stdout filename = (stdout, None)
  /\ WriteInplace w fs filename
     = (plain w,
        (os_WriteFile fs filename "").1,
        option_map (failed_to_overwrite (humanReadableFilename filename))
          (os_WriteFile fs filename "").2).
Proof.
  intros Hj Hy Hload.
  assert (Hall : forall w', OutputStyle w' = OutputStyle w ->
            Forall (fun document => (write_document w' document).2 = None) documents).
  { intros w' Hw'. apply Forall_forall. intros d _.
    rewrite write_document_other_style; [done| |]; by rewrite Hw'. }
  split.
  - unfold WriteToStdout, write. rewrite Hload.
    rewrite (write_documents_all _ _ _ (Hall w eq_refl)).
    by rewrite (rendered_other_style w documents Hj Hy), string_app_empty.
  - rewrite (WriteInplace_rendered w fs filename documents Hload
               (Hall (plain w) eq_refl)).
    by rewrite (rendered_other_style (plain w) documents Hj Hy).
Qed.

Lemma write_document_plain (w w' : OutputWriter) (document : Document) :
  Restructure w = Restructure w' -> OutputStyle w = OutputStyle w' ->
  write_document (plain w) document = write_document (plain w') document.
Proof.
  intros Hr Hs. unfold write_document, plain; simpl. rewrite Hr, Hs.
  repeat case_bool_decide; try done; congruence.
Qed.

(** X30. What [WriteInplace] writes, and the error it returns, do not
    depend on [PlainMode] or [OmitIndentHelper]; the writer is in plain mode
    afterwards. *)
Theorem WriteInplace_is_plain (w w' : OutputWriter) (fs : FS) (filename : string) :
  Restructure w = Restructure w' ->
  OutputStyle w = OutputStyle w' ->
  (WriteInplace w fs filename).1.2 = (WriteInplace w' fs filename).1.2
  /\ (WriteInplace w fs filename).2 = (WriteInplace w' fs filename).2
  /\ PlainMode (WriteInplace w fs filename).1.1 = true.
Proof.
  intros Hr Hs.
  assert (Hdocs : forall documents written,
            write_documents (plain w) documents written
            = write_documents (plain w') documents written).
  { induction documents as [|d ds IH]; intros written; simpl; [done|].
    rewrite (write_document_plain w w' d Hr Hs).
    destruct (write_document (plain w') d) as [bytes [e|]]; [done | apply IH]. }
  unfold WriteInplace, write. fold (plain w) (plain w').
  destruct (LoadFile fs filename) as [documents [e|]]; [done|].
  rewrite Hdocs. destruct (write_documents (plain w') documents "") as [buf [e|]]; [done|].
  by destruct (os_WriteFile fs filename buf).
Qed.

End Writers.

(** * The properties at work on the concrete library *)

#[local] Existing Instance sample.lib.
#[local] Existing Instance sample.yaml_lib.
#[local] Existing Instance sample.cmd_lib.

(** ** Where the code and the specification part *)

(** C1. A diff with three details (a removal, an addition and an order
    change at one list) is not passed through: [consolidateDiff] puts a
    single zero detail in its place.  A removal with an order change comes
    out as a modification towards nothing. *)
Theorem three_details_are_lost :
  consolidateDiff (sample.report [sample.list_change])
  = Ok {[ "a" := [sample.zero_at_list] ]}
  /\ consolidated sample.list_change = sample.zero_at_list
  /\ consolidated sample.list_shrink
     = sample.diff (Some sample.list_a) [sample.detail (Some "x") None 177%Z].
Proof. repeat split. Qed.

(** C2. The report with one diff in document [a] and then one in document
    [b] has [a], [b] as its order of first occurrence, and [WriteReport] can
    emit the two records in that order and in the opposite one: the order
    is the one in which [range] happens to visit the map. *)
Theorem map_order_reaches_the_output :
  document_keys sample.two_documents = ["a"; "b"]
  /\ WriteReport sample.two_documents [] (Ok (["a"; "b"; newline], None))
  /\ WriteReport sample.two_documents [] (Ok (["b"; "a"; newline], None)).
Proof.
  split; [reflexivity|]. unfold WriteReport.
  assert (Hm : consolidateDiff sample.two_documents
               = Ok (<["b" := [sample.diff_b]]> (<["a" := [sample.diff_a]]> ∅)))
    by reflexivity.
  rewrite Hm. split.
  - exists [("a", [sample.diff_a]); ("b", [sample.diff_b])].
    split; [|reflexivity]. vm_compute. reflexivity.
  - exists [("b", [sample.diff_b]); ("a", [sample.diff_a])].
    split; [|reflexivity]. vm_compute. apply Permutation_swap.
Qed.



(** The lone addition without a path stops [IgnoreNewDocuments] and
    [consolidateDiff] alike. *)
Lemma addition_without_path_panics :
  IgnoreNewDocuments (sample.report [sample.addition_without_path]) = Panic nil_dereference
  /\ consolidateDiff (sample.report [sample.addition_without_path]) = Panic nil_dereference.
Proof. repeat split. Qed.

(** ** The theorems at concrete inputs *)

Lemma unparseable_path_matches_nothing_witness :
  (ParsePathStringUnsafe "bad").2 <> None
  /\ ((forall filterPath, path_hit "bad" filterPath = false)
      /\ Filter sample.two_documents (["/"] ++ "bad" :: [])
         = filter sample.two_documents (Filter_hasPath (["/"] ++ []))
      /\ Exclude sample.two_documents (["/"] ++ "bad" :: [])
         = filter sample.two_documents (Exclude_hasPath (["/"] ++ []))).
Proof.
  assert (H : (ParsePathStringUnsafe "bad").2 <> None) by (vm_compute; discriminate).
  split; [exact H|].
  exact (unparseable_path_matches_nothing sample.two_documents ["/"] [] "bad" H).
Defined.

Lemma regexp_pattern_must_compile_witness :
  "(" ∈ ["a"; "("]
  /\ regexp_Compile "(" = None
  /\ ((exists msg, FilterRegexp sample.two_documents ["a"; "("] = Panic msg)
      /\ (exists msg, ExcludeRegexp sample.two_documents ["a"; "("] = Panic msg)
      /\ (exists msg, FilterDocumentRegexp sample.two_documents ["a"; "("] = Panic msg)
      /\ (exists msg, ExcludeDocumentRegexp sample.two_documents ["a"; "("] = Panic msg)).
Proof.
  assert (Hin : "(" ∈ ["a"; "("]) by (apply list_elem_of_In; simpl; auto).
  assert (Hbad : regexp_Compile "(" = None) by reflexivity.
  split; [exact Hin|]. split; [exact Hbad|].
  exact (regexp_pattern_must_compile sample.two_documents ["a"; "("] "(" Hin Hbad).
Defined.




Lemma consolidateDiff_one_detail_per_diff_witness :
  consolidateDiff (sample.report [sample.list_change; sample.new_document])
  = Ok {[ "a" := [sample.zero_at_list; sample.new_document] ]}
  /\ forall file diffs,
       ({[ "a" := [sample.zero_at_list; sample.new_document] ]} : gmap string (list Diff))
         !! file = Some diffs ->
       diffs = map consolidated
                 (List.filter (in_document file) [sample.list_change; sample.new_document])
       /\ Forall (fun diff => length (Details diff) = 1) diffs.
Proof.
  assert (Hm : consolidateDiff (sample.report [sample.list_change; sample.new_document])
               = Ok {[ "a" := [sample.zero_at_list; sample.new_document] ]})
    by reflexivity.
  split; [exact Hm|].
  exact (proj1 (consolidateDiff_one_detail_per_diff _ _ Hm)).
Defined.

Lemma exit_code_gating_witness :
  select_writer (sample.options "yaml" true) sample.two_documents
  = Some (YAML sample.two_documents)
  /\ ReportWriter_WriteReport (YAML sample.two_documents) = Ok None
  /\ writeReport (sample.options "yaml" true) sample.two_documents
     = Ok (Some (errorWithExitCode 1))
  /\ writeReport (sample.options "yaml" true) (sample.report [])
     = Ok (Some (errorWithExitCode 0))
  /\ writeReport (sample.options "yaml" false) sample.two_documents = Ok None.
Proof.
  assert (Hselect : forall exitWithCode report,
            select_writer (sample.options "yaml" exitWithCode) report = Some (YAML report))
    by reflexivity.
  assert (Hwrite : forall report, ReportWriter_WriteReport (YAML report) = Ok None)
    by reflexivity.
  split; [apply Hselect|]. split; [apply Hwrite|].
  split; [|split].
  - exact (proj1 (exit_code_gating (sample.options "yaml" true) sample.two_documents
                    _ (Hselect _ _) (Hwrite _))).
  - exact (proj1 (exit_code_gating (sample.options "yaml" true) (sample.report [])
                    _ (Hselect _ _) (Hwrite _))).
  - exact (proj1 (exit_code_gating (sample.options "yaml" false) sample.two_documents
                    _ (Hselect _ _) (Hwrite _))).
Defined.

(** ** The further properties at concrete inputs *)

#[local] Existing Instance sample.out_lib.

Lemma Filter_keeps_the_paths_named_witness :
  ["/"] <> []
  /\ (sample.diff_a ∈ Diffs (Filter sample.two_documents ["/"])
      <-> sample.diff_a ∈ Diffs sample.two_documents /\ path_named ["/"] sample.diff_a).
Proof.
  assert (H : ["/"] <> []) by discriminate.
  split; [exact H|].
  exact (proj1 (Filter_keeps_the_paths_named sample.two_documents ["/"] sample.diff_a H)).
Defined.

Lemma FilterDocument_keeps_the_documents_named_witness :
  ["a"] <> []
  /\ (sample.diff_a ∈ Diffs (FilterDocument sample.two_documents ["a"])
      <-> sample.diff_a ∈ Diffs sample.two_documents /\ document_named ["a"] sample.diff_a).
Proof.
  assert (H : ["a"] <> []) by discriminate.
  split; [exact H|].
  exact (proj1 (FilterDocument_keeps_the_documents_named
                  sample.two_documents ["a"] sample.diff_a H)).
Defined.

Lemma regexp_operations_keep_the_matches_witness :
  ["a"] <> []
  /\ Forall (fun p => is_Some (regexp_Compile p)) ["a"]
  /\ exists r', FilterDocumentRegexp sample.two_documents ["a"] = Ok r'
                /\ (sample.diff_a ∈ Diffs r'
                    <-> sample.diff_a ∈ Diffs sample.two_documents
                        /\ document_matched ["a"] sample.diff_a).
Proof.
  assert (H : ["a"] <> []) by discriminate.
  assert (Hc : Forall (fun p => is_Some (regexp_Compile p)) ["a"])
    by (repeat constructor; by eexists).
  split; [exact H|]. split; [exact Hc|].
  exact (proj1 (proj2 (proj2 (regexp_operations_keep_the_matches
                                sample.two_documents ["a"] sample.diff_a H Hc)))).
Defined.

Lemma Filter_and_Exclude_split_the_report_witness :
  ["a"] <> []
  /\ Diffs (FilterDocument sample.two_documents ["a"])
     ++ Diffs (ExcludeDocument sample.two_documents ["a"])
     ≡ₚ Diffs sample.two_documents.
Proof.
  assert (H : ["a"] <> []) by discriminate.
  split; [exact H|].
  exact (proj2 (Filter_and_Exclude_split_the_report sample.two_documents ["a"] H)).
Defined.

Lemma Exclude_undoes_Filter_witness :
  ["/"] <> [] /\ Diffs (Exclude (Filter sample.two_documents ["/"]) ["/"]) = [].
Proof.
  assert (H : ["/"] <> []) by discriminate.
  split; [exact H|].
  exact (proj1 (Exclude_undoes_Filter sample.two_documents ["/"] H)).
Defined.

Lemma only_the_set_of_arguments_counts_witness :
  (forall a : string, a ∈ ["a"; "b"] <-> a ∈ ["b"; "a"; "a"])
  /\ FilterDocument sample.two_documents ["a"; "b"]
     = FilterDocument sample.two_documents ["b"; "a"; "a"].
Proof.
  assert (H : forall a : string, a ∈ ["a"; "b"] <-> a ∈ ["b"; "a"; "a"])
    by (intros a; rewrite !elem_of_cons, elem_of_nil; tauto).
  split; [exact H|].
  exact (proj1 (proj2 (proj2 (only_the_set_of_arguments_counts
                                sample.two_documents ["a"; "b"] ["b"; "a"; "a"] H)))).
Defined.

Lemma IgnoreNewDocuments_is_idempotent_witness :
  IgnoreNewDocuments (sample.report [sample.new_document; sample.diff_a])
  = Ok (sample.report [sample.diff_a])
  /\ IgnoreNewDocuments (sample.report [sample.diff_a]) = Ok (sample.report [sample.diff_a]).
Proof.
  assert (H : IgnoreNewDocuments (sample.report [sample.new_document; sample.diff_a])
              = Ok (sample.report [sample.diff_a])) by reflexivity.
  split; [exact H|]. exact (IgnoreNewDocuments_is_idempotent _ _ H).
Defined.

Lemma IgnoreNewDocuments_commutes_witness :
  IgnoreNewDocuments (sample.report [sample.new_document; sample.diff_a])
  = Ok (sample.report [sample.diff_a])
  /\ IgnoreNewDocuments
       (Exclude (sample.report [sample.new_document; sample.diff_a]) ["/list"])
     = Ok (Exclude (sample.report [sample.diff_a]) ["/list"]).
Proof.
  assert (H : IgnoreNewDocuments (sample.report [sample.new_document; sample.diff_a])
              = Ok (sample.report [sample.diff_a])) by reflexivity.
  split; [exact H|].
  exact (proj1 (proj2 (IgnoreNewDocuments_commutes _ _ ["/list"] H))).
Defined.

Lemma IgnoreNewDocuments_returns_after_a_filter_witness :
  ["a"] <> []
  /\ exists r',
       IgnoreNewDocuments
         (FilterDocument (sample.report [sample.addition_without_path; sample.diff_a]) ["a"])
       = Ok r'.
Proof.
  assert (H : ["a"] <> []) by discriminate.
  split; [exact H|].
  exact (proj2 (IgnoreNewDocuments_returns_after_a_filter
                  (sample.report [sample.addition_without_path; sample.diff_a]) ["a"] H)).
Defined.

Lemma unparseable_paths_alone_witness :
  ["bad"; "worse"] <> []
  /\ Forall (fun p => (ParsePathStringUnsafe p).2 <> None) ["bad"; "worse"]
  /\ Diffs (Filter sample.two_documents ["bad"; "worse"]) = []
  /\ Exclude sample.two_documents ["bad"; "worse"] = sample.two_documents.
Proof.
  assert (H : ["bad"; "worse"] <> []) by discriminate.
  assert (Hbad : Forall (fun p => (ParsePathStringUnsafe p).2 <> None) ["bad"; "worse"])
    by (repeat constructor; vm_compute; discriminate).
  split; [exact H|]. split; [exact Hbad|].
  exact (unparseable_paths_alone sample.two_documents ["bad"; "worse"] H Hbad).
Defined.

Lemma groups_are_the_documents_witness :
  consolidateDiff sample.two_documents
  = Ok (<["b" := [sample.diff_b]]> (<["a" := [sample.diff_a]]> ∅))
  /\ default [] ((<["b" := [sample.diff_b]]> (<["a" := [sample.diff_a]]> ∅)
                  : gmap string (list Diff)) !! "a")
     = map consolidated (Diffs (FilterDocument sample.two_documents ["a"])).
Proof.
  assert (H : consolidateDiff sample.two_documents
              = Ok (<["b" := [sample.diff_b]]> (<["a" := [sample.diff_a]]> ∅)))
    by reflexivity.
  split; [exact H|]. exact (proj1 (groups_are_the_documents _ _ "a" H)).
Defined.

Lemma consolidateDiff_is_idempotent_witness :
  consolidateDiff (sample.report [sample.list_change; sample.new_document])
  = Ok {[ "a" := [sample.zero_at_list; sample.new_document] ]}
  /\ ({[ "a" := [sample.zero_at_list; sample.new_document] ]} : gmap string (list Diff))
       !! "a" = Some [sample.zero_at_list; sample.new_document]
  /\ consolidateDiff (sample.report [sample.zero_at_list; sample.new_document])
     = Ok {[ "a" := [sample.zero_at_list; sample.new_document] ]}.
Proof.
  assert (H : consolidateDiff (sample.report [sample.list_change; sample.new_document])
              = Ok {[ "a" := [sample.zero_at_list; sample.new_document] ]})
    by reflexivity.
  assert (Hg : ({[ "a" := [sample.zero_at_list; sample.new_document] ]}
                : gmap string (list Diff)) !! "a"
               = Some [sample.zero_at_list; sample.new_document])
    by reflexivity.
  split; [exact H|]. split; [exact Hg|].
  exact (consolidateDiff_is_idempotent _ _ "a" _ H Hg).
Defined.

Lemma consolidateDiff_loses_no_diff_witness :
  consolidateDiff sample.two_documents
  = Ok (<["b" := [sample.diff_b]]> (<["a" := [sample.diff_a]]> ∅))
  /\ sum_list_with (fun entry : string * list Diff => length entry.2)
       (map_to_list (<["b" := [sample.diff_b]]> (<["a" := [sample.diff_a]]> ∅)
                     : gmap string (list Diff)))
     = length (Diffs sample.two_documents).
Proof.
  assert (H : consolidateDiff sample.two_documents
              = Ok (<["b" := [sample.diff_b]]> (<["a" := [sample.diff_a]]> ∅)))
    by reflexivity.
  split; [exact H|]. exact (proj1 (consolidateDiff_loses_no_diff _ _ H)).
Defined.

(** The two documents rendered in the order [a], [b]. *)
Lemma two_documents_in_order :
  WriteReport sample.two_documents [] (Ok (["a"; "b"; newline], None)).
Proof.
  unfold WriteReport.
  assert (Hm : consolidateDiff sample.two_documents
               = Ok (<["b" := [sample.diff_b]]> (<["a" := [sample.diff_a]]> ∅)))
    by reflexivity.
  rewrite Hm. exists [("a", [sample.diff_a]); ("b", [sample.diff_b])].
  split; [|reflexivity]. vm_compute. reflexivity.
Qed.

Lemma WriteReport_panics_iff_witness :
  WriteReport sample.two_documents [] (Ok (["a"; "b"; newline], None))
  /\ ((exists msg, Ok (["a"; "b"; newline], @None string) = Panic msg)
      <-> Exists (fun diff => Path diff = None) (Diffs sample.two_documents)).
Proof.
  split; [exact two_documents_in_order|].
  exact (WriteReport_panics_iff _ _ _ two_documents_in_order).
Defined.

Lemma one_document_rendered :
  WriteReport (sample.report [sample.diff_a]) [] (Ok (["a"; newline], None)).
Proof.
  unfold WriteReport.
  assert (Hm : consolidateDiff (sample.report [sample.diff_a])
               = Ok {[ "a" := [sample.diff_a] ]}) by reflexivity.
  rewrite Hm. exists [("a", [sample.diff_a])].
  split; [|reflexivity]. vm_compute. reflexivity.
Qed.

Lemma WriteReport_of_one_document_is_determined_witness :
  (forall diff, diff ∈ Diffs (sample.report [sample.diff_a]) -> in_document "a" diff = true)
  /\ WriteReport (sample.report [sample.diff_a]) [] (Ok (["a"; newline], None))
  /\ Ok (["a"; newline], None) = Ok (["a"; newline], @None string).
Proof.
  assert (H : forall diff, diff ∈ Diffs (sample.report [sample.diff_a]) ->
                           in_document "a" diff = true).
  { intros diff Hin. apply list_elem_of_singleton in Hin. by subst. }
  split; [exact H|]. split; [exact one_document_rendered|].
  exact (WriteReport_of_one_document_is_determined _ "a" _ _ _ H
           one_document_rendered one_document_rendered).
Defined.

Lemma two_documents_strictly :
  @WriteReport sample.lib sample.strict_yaml_lib sample.two_documents []
    (Ok (["a"], Some "no metadata")).
Proof.
  unfold WriteReport.
  assert (Hm : consolidateDiff sample.two_documents
               = Ok (<["b" := [sample.diff_b]]> (<["a" := [sample.diff_a]]> ∅)))
    by reflexivity.
  rewrite Hm. exists [("a", [sample.diff_a]); ("b", [sample.diff_b])].
  split; [|reflexivity]. vm_compute. reflexivity.
Qed.

Lemma WriteReport_needs_the_metadata_of_every_document_witness :
  sample.diff_b ∈ Diffs sample.two_documents
  /\ Path sample.diff_b = Some sample.root_b
  /\ (@K8sMetaFromName sample.lib sample.strict_yaml_lib (RootDescription sample.root_b)).2
     <> None
  /\ @WriteReport sample.lib sample.strict_yaml_lib sample.two_documents []
       (Ok (["a"], Some "no metadata"))
  /\ Ok (["a"], Some "no metadata") <> Ok (["a"; "b"; newline], @None string).
Proof.
  assert (Hin : sample.diff_b ∈ Diffs sample.two_documents)
    by (apply list_elem_of_In; simpl; auto).
  assert (Hp : Path sample.diff_b = Some sample.root_b) by reflexivity.
  assert (Hfail : (@K8sMetaFromName sample.lib sample.strict_yaml_lib
                     (RootDescription sample.root_b)).2 <> None)
    by (vm_compute; discriminate).
  split; [exact Hin|]. split; [exact Hp|]. split; [exact Hfail|].
  split; [exact two_documents_strictly|].
  exact (@WriteReport_needs_the_metadata_of_every_document sample.lib sample.strict_yaml_lib
           sample.two_documents [] ["a"; "b"; newline] _ sample.diff_b sample.root_b
           Hin Hp Hfail two_documents_strictly).
Defined.

Lemma RunE_filters_frame_witness :
  RunE_filters sample.root_filter (sample.report [sample.new_document; sample.list_change])
  = Ok (sample.report [sample.new_document])
  /\ frame (sample.report [sample.new_document; sample.list_change])
       (sample.report [sample.new_document]).
Proof.
  assert (H : RunE_filters sample.root_filter
                (sample.report [sample.new_document; sample.list_change])
              = Ok (sample.report [sample.new_document])) by reflexivity.
  split; [exact H|]. exact (proj1 (RunE_filters_frame _ _ _ H)).
Defined.

Lemma RunE_filters_returns_witness :
  Forall (fun p => is_Some (regexp_Compile p))
    (patterns (mkReportFilters (Some ["/"]) (Some ["a"]) None None None None None None
                 true true))
  /\ Forall (fun diff => lone_addition diff = true -> is_Some (Path diff))
       (Diffs sample.two_documents)
  /\ exists r',
       RunE_filters
         (mkReportFilters (Some ["/"]) (Some ["a"]) None None None None None None true true)
         sample.two_documents
       = Ok r'.
Proof.
  assert (Hc : Forall (fun p => is_Some (regexp_Compile p))
                 (patterns (mkReportFilters (Some ["/"]) (Some ["a"]) None None None None
                              None None true true)))
    by (repeat constructor; by eexists).
  assert (Hp : Forall (fun diff => lone_addition diff = true -> is_Some (Path diff))
                 (Diffs sample.two_documents))
    by (repeat constructor; intros _; by eexists).
  split; [exact Hc|]. split; [exact Hp|].
  exact (proj2 (RunE_filters_returns _ sample.two_documents) Hc Hp).
Defined.

Lemma RunE_filters_ignores_value_changes_witness :
  opt_IgnoreValueChanges sample.value_filter = true
  /\ RunE_filters sample.value_filter (sample.report [sample.new_document; sample.diff_a])
     = Ok (sample.report [sample.new_document])
  /\ sample.new_document ∈ Diffs (sample.report [sample.new_document])
  /\ ~ value_change sample.new_document.
Proof.
  assert (Hflag : opt_IgnoreValueChanges sample.value_filter = true) by reflexivity.
  assert (H : RunE_filters sample.value_filter
                (sample.report [sample.new_document; sample.diff_a])
              = Ok (sample.report [sample.new_document])) by reflexivity.
  assert (Hin : sample.new_document ∈ Diffs (sample.report [sample.new_document]))
    by apply list_elem_of_here.
  split; [exact Hflag|]. split; [exact H|]. split; [exact Hin|].
  exact (RunE_filters_ignores_value_changes _ _ _ _ Hflag H Hin).
Defined.

Lemma RunE_exits_with_1_only_on_diffs_witness :
  RunE_report (sample.options "yaml" true) sample.no_filters sample.two_documents
  = Ok (Some (errorWithExitCode 1))
  /\ Diffs sample.two_documents <> [].
Proof.
  assert (H : RunE_report (sample.options "yaml" true) sample.no_filters
                sample.two_documents
              = Ok (Some (errorWithExitCode 1))) by reflexivity.
  split; [exact H|]. exact (RunE_exits_with_1_only_on_diffs _ _ _ H).
Defined.

Lemma WriteInplace_is_all_or_nothing_witness :
  LoadFile sample.files "good" = (["x"; "y"], None)
  /\ Forall (fun document => (write_document (plain sample.json_writer) document).2 = None)
       ["x"; "y"]
  /\ WriteInplace sample.json_writer sample.files "good"
     = (plain sample.json_writer,
        <["good" := ["{x}" +:+ newline +:+ "{y}" +:+ newline]]> sample.files,
        None).
Proof.
  assert (Hload : LoadFile sample.files "good" = (["x"; "y"], None)) by reflexivity.
  assert (Hall : Forall (fun document =>
                           (write_document (plain sample.json_writer) document).2 = None)
                   ["x"; "y"])
    by (repeat constructor).
  split; [exact Hload|]. split; [exact Hall|].
  exact (proj1 (WriteInplace_is_all_or_nothing sample.json_writer sample.files "good"
                  ["x"; "y"] Hload) Hall).
Defined.

Lemma WriteToStdout_stops_at_the_first_error_witness :
  LoadFile sample.files "broken" = (["x"] ++ "bad" :: ["y"], None)
  /\ Forall (fun document => (write_document sample.json_writer document).2 = None) ["x"]
  /\ (write_document sample.json_writer "bad").2 = Some (library_error "cannot encode")
  /\ WriteToStdout sample.json_writer sample.files "" "broken"
     = ("{ x }" +:+ newline,
        Some (failed_to_write_output_to_stdout (library_error "cannot encode"))).
Proof.
  assert (Hload : LoadFile sample.files "broken" = (["x"] ++ "bad" :: ["y"], None))
    by reflexivity.
  assert (Hall : Forall (fun document =>
                           (write_document sample.json_writer document).2 = None) ["x"])
    by (repeat constructor).
  assert (Hbad : (write_document sample.json_writer "bad").2
                 = Some (library_error "cannot encode")) by reflexivity.
  split; [exact Hload|]. split; [exact Hall|]. split; [exact Hbad|].
  exact (WriteToStdout_stops_at_the_first_error sample.json_writer sample.files ""
           "broken" ["x"] ["y"] "bad" _ Hload Hall Hbad).
Defined.

Lemma other_styles_write_nothing_witness :
  OutputStyle sample.xml_writer <> "json"
  /\ OutputStyle sample.xml_writer <> "yaml"
  /\ LoadFile sample.files "good" = (["x"; "y"], None)
  /\ WriteToStdout sample.xml_writer sample.files "" "good" = ("", None)
  /\ WriteInplace sample.xml_writer sample.files "good"
     = (plain sample.xml_writer, <["good" := [""]]> sample.files, None).
Proof.
  assert (Hj : OutputStyle sample.xml_writer <> "json") by discriminate.
  assert (Hy : OutputStyle sample.xml_writer <> "yaml") by discriminate.
  assert (Hload : LoadFile sample.files "good" = (["x"; "y"], None)) by reflexivity.
  split; [exact Hj|]. split; [exact Hy|]. split; [exact Hload|].
  exact (other_styles_write_nothing sample.xml_writer sample.files "" "good" ["x"; "y"]
           Hj Hy Hload).
Defined.

Lemma WriteInplace_is_plain_witness :
  Restructure sample.json_writer = Restructure (mkOutputWriter true false true "json")
  /\ OutputStyle sample.json_writer = OutputStyle (mkOutputWriter true false true "json")
  /\ (WriteInplace sample.json_writer sample.files "good").1.2
     = (WriteInplace (mkOutputWriter true false true "json") sample.files "good").1.2.
Proof.
  assert (Hr : Restructure sample.json_writer
               = Restructure (mkOutputWriter true false true "json")) by reflexivity.
  assert (Hs : OutputStyle sample.json_writer
               = OutputStyle (mkOutputWriter true false true "json")) by reflexivity.
  split; [exact Hr|]. split; [exact Hs|].
  exact (proj1 (WriteInplace_is_plain sample.json_writer
                  (mkOutputWriter true false true "json") sample.files "good" Hr Hs)).
Defined.
